(** * The Velora validator: consensus, spot check, scoring and weights

    A shallow embedding of [src/subnet/validator/validator.py].

    Conventions of the embedding.
    - A Python exception is a value of [exn]; a computation that may raise
      returns a [result].
    - A Python number is an [int] or a [float] ([num]).  A [float] is
      idealised as an exact rational: no rounding, no overflow, no NaN.
      What is kept is the dynamic typing of the operators (true division
      always yields a float and raises on a zero divisor, the operator [^]
      is defined on ints only).
    - A Python [dict] is an association list in insertion order with
      pairwise distinct keys.
    - The ledger client and the pool database are observed through the
      trace of calls made on them ([world]). *)

From Stdlib Require Import String.
From Stdlib Require Import List ZArith QArith Qround Bool Lia Lqa.
From Stdlib Require Import Permutation Sorted.
Import ListNotations.

Local Open Scope Z_scope.

(* ================================================================== *)
(** ** Python values and exceptions *)
(* ================================================================== *)

Module Py.

Inductive exn : Type :=
| TypeError
| KeyError
| IndexError
| ZeroDivisionError
| ValueError
| AssertionError.

Inductive result (A : Type) : Type :=
| Ok (a : A)
| Err (e : exn).

Arguments Ok {A} a.
Arguments Err {A} e.

Definition bind {A B : Type} (r : result A) (k : A -> result B) : result B :=
  match r with
  | Ok a => k a
  | Err e => Err e
  end.

(** Numbers: [int] and [float]. *)
Inductive num : Type :=
| Int (z : Z)
| Float (q : Q).

Definition to_Q (x : num) : Q :=
  match x with
  | Int z => inject_Z z
  | Float q => q
  end.

Definition Qltb (a b : Q) : bool := negb (Qle_bool b a).

Definition is_zero (x : num) : bool := Qeq_bool (to_Q x) 0.

(** [a + b], [a - b], [a * b]: int when both are ints, float otherwise. *)
Definition add (a b : num) : num :=
  match a, b with
  | Int x, Int y => Int (x + y)
  | _, _ => Float (to_Q a + to_Q b)
  end.

Definition sub (a b : num) : num :=
  match a, b with
  | Int x, Int y => Int (x - y)
  | _, _ => Float (to_Q a - to_Q b)
  end.

Definition mul (a b : num) : num :=
  match a, b with
  | Int x, Int y => Int (x * y)
  | _, _ => Float (to_Q a * to_Q b)
  end.

(** [a / b]: always a float; a zero divisor raises. *)
Definition truediv (a b : num) : result num :=
  if is_zero b then Err ZeroDivisionError
  else Ok (Float (to_Q a / to_Q b)).

(** [a ^ b] is bitwise exclusive or: ints only. *)
Definition xor (a b : num) : result num :=
  match a, b with
  | Int x, Int y => Ok (Int (Z.lxor x y))
  | _, _ => Err TypeError
  end.

(** [a < b], [a <= b] on numbers. *)
Definition lt (a b : num) : bool := Qltb (to_Q a) (to_Q b).
Definition le (a b : num) : bool := Qle_bool (to_Q a) (to_Q b).

(** [int(x)]: truncation towards zero. *)
Definition int (x : num) : Z :=
  match x with
  | Int z => z
  | Float q => Z.quot (Qnum q) (Zpos (Qden q))
  end.

(** [sum(xs)]: starts from the int [0]. *)
Definition sum (xs : list num) : num := fold_left add xs (Int 0).

(** [max(xs)] and [min(xs)] of a non-empty sequence of numbers; the first
    extremal element is kept. *)
Definition max (xs : list num) : result num :=
  match xs with
  | [] => Err ValueError
  | x :: r => Ok (fold_left (fun best y => if lt best y then y else best) r x)
  end.

Definition min (xs : list num) : result num :=
  match xs with
  | [] => Err ValueError
  | x :: r => Ok (fold_left (fun best y => if lt y best then y else best) r x)
  end.

(** [max(xs, key=key)]: the first element of [xs] whose key is maximal. *)
Definition max_by {A : Type} (key : A -> nat) (xs : list A) : result A :=
  match xs with
  | [] => Err ValueError
  | x :: r =>
      Ok (fold_left (fun best y => if Nat.ltb (key best) (key y) then y else best) r x)
  end.

(** [xs[:m]]: a negative bound counts from the end. *)
Definition slice_to {A : Type} (xs : list A) (m : Z) : list A :=
  if 0 <=? m then firstn (Z.to_nat m) xs
  else firstn (Z.to_nat (Z.of_nat (length xs) + m)) xs.

(** Dictionaries with keys in [Z]. *)
Definition dict (V : Type) : Type := list (Z * V).

Definition keys {V : Type} (d : dict V) : list Z := map fst d.
Definition values {V : Type} (d : dict V) : list V := map snd d.

Fixpoint get {V : Type} (d : dict V) (k : Z) : result V :=
  match d with
  | [] => Err KeyError
  | (k', v) :: r => if Z.eqb k' k then Ok v else get r k
  end.

(** [d[k] = v]: an existing key keeps its position. *)
Fixpoint set {V : Type} (d : dict V) (k : Z) (v : V) : dict V :=
  match d with
  | [] => [(k, v)]
  | (k', v') :: r => if Z.eqb k' k then (k', v) :: r else (k', v') :: set r k v
  end.

(** [dict(items)]. *)
Definition of_items {V : Type} (items : list (Z * V)) : dict V :=
  fold_left (fun d kv => set d (fst kv) (snd kv)) items [].

(** An iterable is a list, which can be traversed again, or a [zip]
    object, which is consumed by its first traversal. *)
Inductive iterable (A : Type) : Type :=
| PyList (l : list A)
| PyZip (remaining : list A).

Arguments PyList {A} l.
Arguments PyZip {A} remaining.

(** One traversal: the items seen, and the iterable afterwards. *)
Definition iterate {A : Type} (it : iterable A) : list A * iterable A :=
  match it with
  | PyList l => (l, PyList l)
  | PyZip r => (r, PyZip [])
  end.

(** Truth value: an empty list is false, a [zip] object is always true. *)
Definition truthy {A : Type} (it : iterable A) : bool :=
  match it with
  | PyList [] => false
  | PyList (_ :: _) => true
  | PyZip _ => true
  end.

End Py.

Notation "x <- c1 ;; c2" := (Py.bind c1 (fun x => c2))
  (at level 61, c1 at next level, right associativity).

Module PyMore.
Import Py.

(** [sorted(xs, key=key, reverse=True)]: a stable sort into descending
    order of [key]; elements with equal keys keep their relative order. *)
Fixpoint insert_desc {A : Type} (key : A -> num) (x : A) (l : list A) : list A :=
  match l with
  | [] => [x]
  | y :: r => if lt (key x) (key y) then y :: insert_desc key x r else x :: l
  end.

Definition sorted_reverse {A : Type} (key : A -> num) (xs : list A) : list A :=
  fold_right (insert_desc key) [] xs.

(** Computations that may raise and that act on a state [S]; the state
    reached when an exception is raised is kept. *)
Definition M (S A : Type) : Type := S -> result A * S.

Definition ret {S A : Type} (a : A) : M S A := fun s => (Ok a, s).

Definition lift {S A : Type} (r : result A) : M S A := fun s => (r, s).

Definition bindM {S A B : Type} (c : M S A) (k : A -> M S B) : M S B :=
  fun s =>
    match c s with
    | (Ok a, s') => k a s'
    | (Err e, s') => (Err e, s')
    end.

Definition option_eqb {A : Type} (eqb : A -> A -> bool) (a b : option A) : bool :=
  match a, b with
  | Some x, Some y => eqb x y
  | None, None => true
  | _, _ => false
  end.

End PyMore.

Notation "x <~ c1 ;; c2" := (PyMore.bindM c1 (fun x => c2))
  (at level 61, c1 at next level, right associativity).

(* ================================================================== *)
(** ** Data model *)
(* ================================================================== *)

(** One record of a miner's ["data"] list.  A field is [None] when the
    key is missing from the record. *)
Record BlockData : Type := mkBlockData {
  block_number : option Z;
  transaction_hash : option string
}.

(** A decoded miner answer.  ["data"] and ["overall_data_hash"] come from
    the miner and may be missing; ["process_time"] is added by
    [_get_miner_prediction] and is given in seconds. *)
Record MinerAnswer : Type := mkMinerAnswer {
  data : option (list BlockData);
  overall_data_hash : option string;
  process_time : Q
}.

(** The prompt built by [get_miner_prompt]. *)
Record MinerPrompt : Type := mkMinerPrompt {
  token_a : string;
  token_b : string;
  fee : string;
  start_datetime : string;
  end_datetime : string
}.

(** The field of [ValidatorSettings] read by [set_weights]. *)
Record ValidatorSettings : Type := mkValidatorSettings {
  max_allowed_weights : Z
}.

(** The objects passed to [_score_miner]. *)
Inductive pyobj : Type :=
| PyNone
| PyPrompt (p : MinerPrompt)
| PyAnswer (a : MinerAnswer).

Definition of_response (r : option MinerAnswer) : pyobj :=
  match r with
  | None => PyNone
  | Some a => PyAnswer a
  end.

(** Calls made on the ledger client and on the database manager. *)
Inductive event : Type :=
| Vote (uids : list Z) (weights : list Z) (netuid : Z)
| CreatePoolDataTable (ta tb tf : string)
| AddPoolData (ta tb tf : string) (answer : MinerAnswer)
| MarkTokenPairAsComplete (start_dt end_dt ta tb tf : string)
| MarkTimeRangeAsComplete (start_dt end_dt : string).

Definition world : Type := list event.

Definition is_vote (e : event) : bool :=
  match e with
  | Vote _ _ _ => true
  | _ => false
  end.

(** How a call of [validate_step] that does not raise ends. *)
Inductive outcome : Type :=
| NoAnswer          (* "No miner managed to give an answer" *)
| NoValidAnswer     (* "No miner managed to give a valid answer", before the check *)
| AnswersNotValid   (* "Miner answers are not valid" *)
| NoScores          (* "No miner managed to give a valid answer", after scoring *)
| WeightsSet.

(* ================================================================== *)
(** ** Weights: [cut_to_max_allowed_weights] and [set_weights] *)
(* ================================================================== *)

Definition cut_to_max_allowed_weights
    (score_dict : Py.dict Py.num) (max_allowed_weights : Z) : Py.dict Py.num :=
  let sorted_scores := PyMore.sorted_reverse snd score_dict in
  let cut_scores := Py.slice_to sorted_scores max_allowed_weights in
  Py.of_items cut_scores.

(** The loop of [set_weights] over the items of the cut dictionary. *)
Fixpoint weigh (scores : Py.num) (items : list (Z * Py.num))
    (weighted_scores : Py.dict Z) : Py.result (Py.dict Z) :=
  match items with
  | [] => Py.Ok weighted_scores
  | (uid, score) :: rest =>
      q <- Py.truediv (Py.mul score (Py.Int 1000)) scores ;;
      let weight := Py.int q in
      weigh scores rest (Py.set weighted_scores uid weight)
  end.

Definition set_weights (settings : ValidatorSettings)
    (score_dict : Py.dict Py.num) (netuid : Z) : PyMore.M world unit :=
  fun client =>
    let score_dict :=
      cut_to_max_allowed_weights score_dict (max_allowed_weights settings) in
    let scores := Py.sum (Py.values score_dict) in
    match weigh scores score_dict [] with
    | Py.Err e => (Py.Err e, client)
    | Py.Ok weighted_scores =>
        let weighted_scores :=
          Py.of_items (filter (fun kv => negb (snd kv =? 0)) weighted_scores) in
        let uids := Py.keys weighted_scores in
        let weights := Py.values weighted_scores in
        (Py.Ok tt, client ++ [Vote uids weights netuid])
    end.

(* ================================================================== *)
(** ** Scoring: [_score_miner] and [score_miners] *)
(* ================================================================== *)

(** [obj["data"]]. *)
Definition get_data (obj : pyobj) : Py.result (list BlockData) :=
  match obj with
  | PyNone => Py.Err Py.TypeError
  | PyPrompt _ => Py.Err Py.KeyError
  | PyAnswer a =>
      match data a with
      | Some d => Py.Ok d
      | None => Py.Err Py.KeyError
      end
  end.

(** [xs[i]]. *)
Definition index {A : Type} (xs : list A) (i : nat) : Py.result A :=
  match nth_error xs i with
  | Some x => Py.Ok x
  | None => Py.Err Py.IndexError
  end.

(** [rec["transaction_hash"]]. *)
Definition get_transaction_hash (rec : BlockData) : Py.result string :=
  match transaction_hash rec with
  | Some h => Py.Ok h
  | None => Py.Err Py.KeyError
  end.

(** The list comprehension of [_score_miner]: one [0] or [1] for each
    [i] in [range(len(miner_answer["data"]))]. *)
Fixpoint correct_entries (miner_answer ground_truth : pyobj) (range : list nat)
    : Py.result (list Py.num) :=
  match range with
  | [] => Py.Ok []
  | i :: rest =>
      md <- get_data miner_answer ;;
      mrec <- index md i ;;
      mh <- get_transaction_hash mrec ;;
      gd <- get_data ground_truth ;;
      grec <- index gd i ;;
      gh <- get_transaction_hash grec ;;
      tl <- correct_entries miner_answer ground_truth rest ;;
      Py.Ok (Py.Int (if String.eqb mh gh then 1 else 0) :: tl)
  end.

(** The body of [_score_miner], once its three parameters are bound.
    [not miner_answer] holds of [None] only: a prompt and a decoded
    answer are non-empty dictionaries. *)
Definition _score_miner_body (miner_prompt miner_answer ground_truth : pyobj)
    : Py.result Py.num :=
  match miner_answer with
  | PyNone => Py.Ok (Py.Int 0)
  | _ =>
      md <- get_data miner_answer ;;
      entries <- correct_entries miner_answer ground_truth (seq 0 (length md)) ;;
      let cnt_correct_entry := Py.sum entries in
      let cnt_all := Py.Int (Z.of_nat (length md)) in
      q <- Py.truediv
             (Py.sub cnt_correct_entry (Py.mul cnt_all (Py.Float (3 # 4))))
             cnt_all ;;
      accuracy_score <- Py.xor (Py.mul q (Py.Int 4)) (Py.Int 3) ;;
      Py.Ok accuracy_score
  end.

(** A call of the method [_score_miner(self, miner_prompt, miner_answer,
    ground_truth)] with the given positional arguments: any other number
    of arguments is a [TypeError]. *)
Definition _score_miner (args : list pyobj) : Py.result Py.num :=
  match args with
  | [miner_prompt; miner_answer; ground_truth] =>
      _score_miner_body miner_prompt miner_answer ground_truth
  | _ => Py.Err Py.TypeError
  end.

(** The [for] loop of [score_miners]; a reply that is present is a
    non-empty dictionary, so that [not miner_answer] holds of an absent
    reply only.  The pause [time.sleep(0.5)] and the log lines have no
    effect on the result and are left out. *)
Fixpoint accuracy_loop (items : list (Z * option MinerAnswer))
    (trust_miner_result : pyobj) (accuracy_score : Py.dict Py.num)
    : Py.result (Py.dict Py.num) :=
  match items with
  | [] => Py.Ok accuracy_score
  | (uid, miner_response) :: rest =>
      match miner_response with
      | None => accuracy_loop rest trust_miner_result accuracy_score
      | Some miner_answer =>
          score <- _score_miner [PyAnswer miner_answer; trust_miner_result] ;;
          if Py.le score (Py.Int 1)
          then accuracy_loop rest trust_miner_result
                 (Py.set accuracy_score uid score)
          else Py.Err Py.AssertionError
      end
  end.

(** [{uid: miner_answer["process_time"].total_seconds() for ...}]. *)
Fixpoint process_time_seconds (items : list (Z * option MinerAnswer))
    (acc : Py.dict Py.num) : Py.result (Py.dict Py.num) :=
  match items with
  | [] => Py.Ok acc
  | (uid, miner_answer) :: rest =>
      match miner_answer with
      | None => Py.Err Py.TypeError
      | Some a => process_time_seconds rest (Py.set acc uid (Py.Float (process_time a)))
      end
  end.

(** [{uid: 1 - 0.5 * (process_time - min_time) / (max_time - min_time)
      for ...}]. *)
Fixpoint normalize_loop (min_time max_time : Py.num)
    (items : list (Z * Py.num)) (acc : Py.dict Py.num)
    : Py.result (Py.dict Py.num) :=
  match items with
  | [] => Py.Ok acc
  | (uid, process_time) :: rest =>
      q <- Py.truediv
             (Py.mul (Py.Float (1 # 2)) (Py.sub process_time min_time))
             (Py.sub max_time min_time) ;;
      normalize_loop min_time max_time rest
        (Py.set acc uid (Py.sub (Py.Int 1) q))
  end.

(** The latency normalization of [score_miners]. *)
Definition latency_normalization (process_time_score : Py.dict Py.num)
    : Py.result (Py.dict Py.num) :=
  max_time <- Py.max (Py.values process_time_score) ;;
  min_time <- Py.min (Py.values process_time_score) ;;
  normalize_loop min_time max_time process_time_score [].

(** [{uid: (accuracy_score[uid] + process_time_score[uid]) / 2 for ...}]. *)
Fixpoint overall_loop (accuracy_score process_time_score : Py.dict Py.num)
    (uids : list Z) (acc : Py.dict Py.num) : Py.result (Py.dict Py.num) :=
  match uids with
  | [] => Py.Ok acc
  | uid :: rest =>
      a <- Py.get accuracy_score uid ;;
      p <- Py.get process_time_score uid ;;
      q <- Py.truediv (Py.add a p) (Py.Int 2) ;;
      overall_loop accuracy_score process_time_score rest (Py.set acc uid q)
  end.

Definition score_miners (miner_results : Py.iterable (Z * option MinerAnswer))
    (trust_miner_result : pyobj) : Py.result (Py.dict Py.num) :=
  let '(items, miner_results) := Py.iterate miner_results in
  accuracy_score <- accuracy_loop items trust_miner_result [] ;;
  let '(items, miner_results) := Py.iterate miner_results in
  process_time_score <- process_time_seconds items [] ;;
  process_time_score <- latency_normalization process_time_score ;;
  overall_loop accuracy_score process_time_score (Py.keys accuracy_score) [].

(* ================================================================== *)
(** ** Spot check and validation step *)
(* ================================================================== *)

Section Validator.

(** Collaborators that are not part of this file of the repository. *)

(** [int(s)] on the fee string of the prompt; [None] when it raises. *)
Variable parse_int : string -> option Z.

(** [pool_data_fetcher.get_block_number_range(start, end)]. *)
Variable get_block_number_range : string -> string -> Z * Z.

(** The ["data"] list (empty when the key is missing) of
    [pool_data_fetcher.get_pool_events_by_token_pairs(token_a, token_b,
    start_block, end_block, fee)]. *)
Variable get_pool_events_by_token_pairs :
  string -> string -> Z -> Z -> Z -> list BlockData.

(** [db_manager.fetch_incompleted_token_pairs(start, end)], as a function
    of the calls made on the database so far. *)
Variable fetch_incompleted_token_pairs :
  world -> string -> string -> list (string * string * string).

(** The source of randomness: the [k]-th call of [random.choice] in a
    round picks the element of index [rand k mod len(seq)]. *)
Variable rand : nat -> nat.

(** The order in which [set(xs)] is iterated.  It is fixed by the hash
    values of the elements and is not the order of [xs]. *)
Variable set_iter : list string -> list string.

Definition ANSWER_CHECK_COUNT : nat := 10.

(** [random.choice(seq)] at the [k]-th draw. *)
Definition random_choice {A : Type} (k : nat) (seq : list A) : Py.result A :=
  match seq with
  | [] => Py.Err Py.IndexError
  | _ :: _ => index seq (rand k mod length seq)
  end.

(** [block_number < block_number_start or block_number > block_number_end]. *)
Definition out_of_range (block_number block_number_start block_number_end : Z)
    : bool :=
  (block_number <? block_number_start) || (block_number >? block_number_end).

(** The inner [for] loop: some pool event has the transaction hash of
    [block_data]. *)
Definition found_in_pools (block_data : BlockData)
    (block_data_from_pools : list BlockData) : bool :=
  existsb
    (fun block_data_of_pool =>
       PyMore.option_eqb String.eqb
         (transaction_hash block_data_of_pool) (transaction_hash block_data))
    block_data_from_pools.

(** The loop [for _ in range(ANSWER_CHECK_COUNT)], with [n] iterations
    left and [k] draws made so far. *)
Fixpoint check_loop (ta tb : string) (token_fee : Z)
    (block_number_start block_number_end : Z) (miner_data : list BlockData)
    (n k : nat) : Py.result bool :=
  match n with
  | O => Py.Ok false
  | S n' =>
      block_data <- random_choice k miner_data ;;
      match block_number block_data with
      | None => Py.Ok false
      | Some bn =>
          if out_of_range bn block_number_start block_number_end
          then Py.Ok false
          else
            let block_data_from_pools :=
              get_pool_events_by_token_pairs ta tb bn bn token_fee in
            if found_in_pools block_data block_data_from_pools
            then Py.Ok true
            else check_loop ta tb token_fee block_number_start
                   block_number_end miner_data n' (S k)
      end
  end.

Definition check_miner_answer (miner_prompt : MinerPrompt)
    (miner_answer : MinerAnswer) : Py.result bool :=
  token_fee <- match parse_int (fee miner_prompt) with
               | Some z => Py.Ok z
               | None => Py.Err Py.ValueError
               end ;;
  let '(block_number_start, block_number_end) :=
    get_block_number_range (start_datetime miner_prompt)
      (end_datetime miner_prompt) in
  match data miner_answer with
  | None => Py.Ok false
  | Some miner_data =>
      check_loop (token_a miner_prompt) (token_b miner_prompt) token_fee
        block_number_start block_number_end miner_data ANSWER_CHECK_COUNT 0
  end.

Definition save_pool_data (miner_prompt : MinerPrompt)
    (miner_answer : MinerAnswer) : PyMore.M world unit :=
  fun db =>
    let ta := token_a miner_prompt in
    let tb := token_b miner_prompt in
    let tf := fee miner_prompt in
    let sd := start_datetime miner_prompt in
    let ed := end_datetime miner_prompt in
    let db := db ++ [CreatePoolDataTable ta tb tf] in
    let db := db ++ [AddPoolData ta tb tf miner_answer] in
    let db := db ++ [MarkTokenPairAsComplete sd ed ta tb tf] in
    match fetch_incompleted_token_pairs db sd ed with
    | [] => (Py.Ok tt, db ++ [MarkTimeRangeAsComplete sd ed])
    | _ :: _ => (Py.Ok tt, db)
    end.

(** [[a['overall_data_hash'] for a in miner_answers if a != None]]. *)
Fixpoint overall_hashes_of (miner_answers : list (option MinerAnswer))
    : Py.result (list string) :=
  match miner_answers with
  | [] => Py.Ok []
  | None :: rest => overall_hashes_of rest
  | Some a :: rest =>
      match overall_data_hash a with
      | None => Py.Err Py.KeyError
      | Some h => tl <- overall_hashes_of rest ;; Py.Ok (h :: tl)
      end
  end.

(** [max(set(overall_hashes), key=overall_hashes.count)]. *)
Definition most_common (overall_hashes : list string) : Py.result string :=
  Py.max_by (count_occ string_dec overall_hashes) (set_iter overall_hashes).

(** [[(key, a) for key, a in miner_results
       if a != None and a['overall_data_hash'] == most_common_hash]]. *)
Fixpoint trust_of (items : list (Z * option MinerAnswer))
    (most_common_hash : string) : Py.result (list (Z * MinerAnswer)) :=
  match items with
  | [] => Py.Ok []
  | (key, None) :: rest => trust_of rest most_common_hash
  | (key, Some a) :: rest =>
      match overall_data_hash a with
      | None => Py.Err Py.KeyError
      | Some h =>
          tl <- trust_of rest most_common_hash ;;
          Py.Ok (if String.eqb h most_common_hash then (key, a) :: tl else tl)
      end
  end.

(** [validate_step] from the end of the polling on: [module_ids] are the
    keys of [modules_info] and [miner_answers] the answers collected for
    them, in the same order. *)
Definition validate_step (module_ids : list Z)
    (miner_answers : list (option MinerAnswer)) (miner_prompt : MinerPrompt)
    (settings : ValidatorSettings) (netuid : Z) : PyMore.M world outcome :=
  let miner_results := Py.PyZip (combine module_ids miner_answers) in
  if negb (Py.truthy miner_results) then PyMore.ret NoAnswer
  else
    overall_hashes <~ PyMore.lift (overall_hashes_of miner_answers) ;;
    match overall_hashes with
    | [] => PyMore.ret NoValidAnswer
    | _ :: _ =>
        most_common_hash <~ PyMore.lift (most_common overall_hashes) ;;
        let '(items, miner_results) := Py.iterate miner_results in
        trust_miner_results <~ PyMore.lift (trust_of items most_common_hash) ;;
        trust <~ PyMore.lift (index trust_miner_results 0) ;;
        valid <~ PyMore.lift (check_miner_answer miner_prompt (snd trust)) ;;
        if negb valid then PyMore.ret AnswersNotValid
        else
          _ <~ save_pool_data miner_prompt (snd trust) ;;
          score_dict <~ PyMore.lift
                          (score_miners miner_results (PyAnswer (snd trust))) ;;
          match score_dict with
          | [] => PyMore.ret NoScores
          | _ :: _ =>
              _ <~ set_weights settings score_dict netuid ;;
              PyMore.ret WeightsSet
          end
    end.

End Validator.

(* ================================================================== *)
(** ** Registry: subnets, addresses and the modules to poll *)
(* ================================================================== *)

(** [get_subnet_netuid]: the first netuid, in the order of the dictionary
    returned by [query_map_subnet_names], whose name is [subnet_name]. *)
Fixpoint get_subnet_netuid (subnets : Py.dict string) (subnet_name : string)
    : Py.result Z :=
  match subnets with
  | [] => Py.Err Py.ValueError
  | (netuid, name) :: rest =>
      if String.eqb name subnet_name then Py.Ok netuid
      else get_subnet_netuid rest subnet_name
  end.

Section Addresses.

(** The characters of an address string.  [is_digit] is the class [\d]
    of the [re] module; [dot] and [colon] are the characters ['.'] and
    [':']. *)
Variable char : Type.
Variable char_eq_dec : forall a b : char, {a = b} + {a <> b}.
Variable is_digit : char -> bool.
Variable dot colon : char.

(** A character class, and one item of a regular expression: a class
    with a greedy quantifier [{rmin,rmax}] ([rmax = None]: unbounded). *)
Inductive cclass : Type :=
| Digit
| Lit (c : char).

Record token : Type := mkToken {
  cls : cclass;
  rmin : nat;
  rmax : option nat
}.

Definition in_class (cl : cclass) (c : char) : bool :=
  match cl with
  | Digit => is_digit c
  | Lit c' => if char_eq_dec c' c then true else false
  end.

(** [IP_REGEX]: [\d{1,3}\.\d{1,3}\.\d{1,3}\.\d{1,3}:\d+]. *)
Definition IP_REGEX : list token :=
  [mkToken Digit 1 (Some 3%nat); mkToken (Lit dot) 1 (Some 1%nat);
   mkToken Digit 1 (Some 3%nat); mkToken (Lit dot) 1 (Some 1%nat);
   mkToken Digit 1 (Some 3%nat); mkToken (Lit dot) 1 (Some 1%nat);
   mkToken Digit 1 (Some 3%nat); mkToken (Lit colon) 1 (Some 1%nat);
   mkToken Digit 1 None].

(** The number of leading characters of [s] in the class [cl], counted up
    to [limit] when there is one. *)
Fixpoint run (cl : cclass) (limit : option nat) (s : list char) : nat :=
  match s with
  | [] => O
  | c :: rest =>
      match limit with
      | Some O => O
      | Some (S n) => if in_class cl c then S (run cl (Some n) rest) else O
      | None => if in_class cl c then S (run cl None rest) else O
      end
  end.

(** A greedy quantifier: take [n] characters, then try the rest of the
    expression; on failure give one character back, down to [lo]. *)
Fixpoint backtrack (cont : list char -> option (list char * list char))
    (s : list char) (lo n : nat) : option (list char * list char) :=
  match cont (skipn n s) with
  | Some (m, rest) => Some (firstn n s ++ m, rest)
  | None =>
      match n with
      | O => None
      | S n' => if Nat.leb n lo then None else backtrack cont s lo n'
      end
  end.

(** Match the expression at the start of [s]: the text matched and what
    follows it. *)
Fixpoint match_here (toks : list token) : list char -> option (list char * list char) :=
  match toks with
  | [] => fun s => Some ([], s)
  | t :: ts =>
      fun s =>
        let r := run (cls t) (rmax t) s in
        if Nat.ltb r (rmin t) then None
        else backtrack (match_here ts) s (rmin t) r
  end.

(** [re.search]: the match at the leftmost position that has one. *)
Fixpoint search (toks : list token) (s : list char) : option (list char) :=
  match match_here toks s with
  | Some (m, _) => Some m
  | None =>
      match s with
      | [] => None
      | _ :: rest => search toks rest
      end
  end.

(** [extract_address]: [None], or the text of the match ([group(0)]). *)
Definition extract_address (addr : list char) : option (list char) :=
  search IP_REGEX addr.

(** [s.split(sep)] for a separator of one character. *)
Fixpoint split (sep : char) (s : list char) : list (list char) :=
  match s with
  | [] => [[]]
  | c :: rest =>
      if char_eq_dec c sep then [] :: split sep rest
      else
        match split sep rest with
        | [] => [[c]]
        | part :: parts => (c :: part) :: parts
        end
  end.

(** [get_ip_port]. *)
Definition get_ip_port (modules_adresses : Py.dict (list char))
    : Py.dict (list (list char)) :=
  let filtered_addr :=
    Py.of_items
      (map (fun kv => (fst kv, extract_address (snd kv))) modules_adresses) in
  Py.of_items
    (flat_map
       (fun kv =>
          match snd kv with
          | Some x => [(fst kv, split colon x)]
          | None => []
          end)
       filtered_addr).

(** The loop of [validate_step] that builds [modules_info]. *)
Fixpoint modules_info_loop
    (modules_filtered_address : Py.dict (list (list char)))
    (modules_keys : Py.dict string) (module_ids : list Z)
    (modules_info : Py.dict (list (list char) * string))
    : Py.result (Py.dict (list (list char) * string)) :=
  match module_ids with
  | [] => Py.Ok modules_info
  | module_id :: rest =>
      match Py.get modules_filtered_address module_id with
      | Py.Err _ | Py.Ok [] =>
          modules_info_loop modules_filtered_address modules_keys rest
            modules_info
      | Py.Ok module_addr =>
          key <- Py.get modules_keys module_id ;;
          modules_info_loop modules_filtered_address modules_keys rest
            (Py.set modules_info module_id (module_addr, key))
      end
  end.

(** The modules that [validate_step] polls, from the two registry
    queries. *)
Definition modules_to_poll (modules_adresses : Py.dict (list char))
    (modules_keys : Py.dict string)
    : Py.result (Py.dict (list (list char) * string)) :=
  let modules_filtered_address := get_ip_port modules_adresses in
  modules_info_loop modules_filtered_address modules_keys
    (Py.keys modules_keys) [].

End Addresses.

Arguments Digit {char}.
Arguments Lit {char} c.
Arguments mkToken {char} cls rmin rmax.
Arguments cls {char} t.
Arguments rmin {char} t.
Arguments rmax {char} t.
Arguments in_class {char} char_eq_dec is_digit cl c.
Arguments IP_REGEX {char} dot colon.
Arguments run {char} char_eq_dec is_digit cl limit s.
Arguments backtrack {char} cont s lo n.
Arguments match_here {char} char_eq_dec is_digit toks s.
Arguments search {char} char_eq_dec is_digit toks s.
Arguments extract_address {char} char_eq_dec is_digit dot colon addr.
Arguments split {char} char_eq_dec sep s.
Arguments get_ip_port {char} char_eq_dec is_digit dot colon modules_adresses.
Arguments modules_info_loop {char} modules_filtered_address modules_keys
  module_ids modules_info.
Arguments modules_to_poll {char} char_eq_dec is_digit dot colon
  modules_adresses modules_keys.

(** Addresses as strings of 8-bit characters, for the examples. *)
Module ExAddr.

Definition is_digit (c : Ascii.ascii) : bool :=
  (48 <=? Ascii.nat_of_ascii c)%nat && (Ascii.nat_of_ascii c <=? 57)%nat.

Definition dot : Ascii.ascii := Ascii.ascii_of_nat 46.
Definition colon : Ascii.ascii := Ascii.ascii_of_nat 58.

Definition chars (s : string) : list Ascii.ascii := list_ascii_of_string s.

End ExAddr.

(* ================================================================== *)
(** ** Vocabulary of the statements *)
(* ================================================================== *)

(** The items kept by [cut_to_max_allowed_weights], before [dict(...)]. *)
Definition retained (score_dict : Py.dict Py.num) (max_allowed_weights : Z)
    : list (Z * Py.num) :=
  Py.slice_to (PyMore.sorted_reverse snd score_dict) max_allowed_weights.

(** The weight computed for one item: [int(score * 1000 / scores)]. *)
Definition share (scores : Py.num) (kv : Z * Py.num) : Z * Z :=
  (fst kv,
   Py.int (Py.Float (Py.to_Q (Py.mul (snd kv) (Py.Int 1000)) / Py.to_Q scores))).

Definition nonzero_weight (kv : Z * Z) : bool := negb (snd kv =? 0).

(** The sum of a list of integer weights. *)
Definition total (weights : list Z) : Z := fold_right Z.add 0 weights.

(** The sum of a list of numbers, as a rational. *)
Definition Qtotal (xs : list Py.num) : Q :=
  fold_right (fun x acc => Py.to_Q x + acc)%Q 0%Q xs.

(** The keys of a dictionary are pairwise distinct. *)
Definition well_formed {V : Type} (d : Py.dict V) : Prop := NoDup (Py.keys d).

(** Descending order of the scores. *)
Definition score_ge (a b : Z * Py.num) : Prop :=
  (Py.to_Q (snd b) <= Py.to_Q (snd a))%Q.

(** What is asked of the iteration order of [set(xs)]: it lists the
    distinct elements of [xs], each of them once. *)
Definition set_order_ok (set_iter : list string -> list string) : Prop :=
  forall xs, NoDup (set_iter xs) /\ forall x, In x (set_iter xs) <-> In x xs.

(** Two iteration orders used in the examples: first occurrences in the
    order of the input, and the reverse of the order kept by [nodup]. *)
Definition input_order (xs : list string) : list string :=
  rev (nodup string_dec (rev xs)).

Definition reversed_order (xs : list string) : list string :=
  rev (nodup string_dec xs).

(** Selection as the specification words it: the largest group wins and,
    among equally large groups, the hash that appears first in the input
    sequence. *)
Definition spec_select (overall_hashes : list string) : Py.result string :=
  Py.max_by (count_occ string_dec overall_hashes) overall_hashes.

(** The verdict of the spot check on one sampled record. *)
Inductive verdict : Type :=
| Match      (* in range, transaction hash found in the pool events *)
| NoMatch    (* in range, transaction hash not found *)
| Outside.   (* no block number, or block number out of range *)

Definition verdict_of
    (get_pool_events_by_token_pairs : string -> string -> Z -> Z -> Z -> list BlockData)
    (ta tb : string) (token_fee block_number_start block_number_end : Z)
    (block_data : BlockData) : verdict :=
  match block_number block_data with
  | None => Outside
  | Some bn =>
      if out_of_range bn block_number_start block_number_end then Outside
      else if found_in_pools block_data
                (get_pool_events_by_token_pairs ta tb bn bn token_fee)
      then Match else NoMatch
  end.

(** The verdict of the [k]-th draw. *)
Definition verdict_at
    (get_pool_events_by_token_pairs : string -> string -> Z -> Z -> Z -> list BlockData)
    (rand : nat -> nat)
    (ta tb : string) (token_fee block_number_start block_number_end : Z)
    (miner_data : list BlockData) (k : nat) : verdict :=
  match nth_error miner_data (rand k mod length miner_data) with
  | Some block_data =>
      verdict_of get_pool_events_by_token_pairs ta tb token_fee
        block_number_start block_number_end block_data
  | None => Outside
  end.

(** The first verdict that is not [NoMatch] decides; none: rejection. *)
Fixpoint first_decisive (vs : list verdict) : bool :=
  match vs with
  | [] => false
  | Match :: _ => true
  | Outside :: _ => false
  | NoMatch :: rest => first_decisive rest
  end.

(** A text conforms to a regular expression when it is the
    concatenation, in order, of one run of characters per item, each run
    in the class of its item and of a length that its quantifier allows. *)
Fixpoint conforms {char : Type}
    (char_eq_dec : forall a b : char, {a = b} + {a <> b})
    (is_digit : char -> bool) (toks : list (token char)) (m : list char)
    : Prop :=
  match toks with
  | [] => m = []
  | t :: ts =>
      exists a b,
        m = a ++ b /\
        (rmin t <= length a)%nat /\
        match rmax t with
        | Some k => (length a <= k)%nat
        | None => True
        end /\
        Forall (fun c => in_class char_eq_dec is_digit (cls t) c = true) a /\
        conforms char_eq_dec is_digit ts b
  end.

(** A non-empty string of digits, and one of at most three digits. *)
Definition digits {char : Type} (is_digit : char -> bool) (s : list char) : Prop :=
  s <> [] /\ Forall (fun c => is_digit c = true) s.

Definition octet {char : Type} (is_digit : char -> bool) (s : list char) : Prop :=
  digits is_digit s /\ (length s <= 3)%nat.

(** The text of a dotted quad: four octets separated by dots. *)
Definition dotted_quad {char : Type} (is_digit : char -> bool) (dot : char)
    (ip : list char) : Prop :=
  exists d1 d2 d3 d4,
    ip = d1 ++ dot :: d2 ++ dot :: d3 ++ dot :: d4 /\
    octet is_digit d1 /\ octet is_digit d2 /\
    octet is_digit d3 /\ octet is_digit d4.

(** [s] does not start with a digit. *)
Definition no_leading_digit {char : Type} (is_digit : char -> bool)
    (s : list char) : Prop :=
  match s with
  | [] => True
  | c :: _ => is_digit c = false
  end.

(** Whether [module_id] has an entry in a dictionary. *)
Definition has_key {V : Type} (d : Py.dict V) (module_id : Z) : bool :=
  existsb (Z.eqb module_id) (Py.keys d).

(** The items whose score equals [q]. *)
Definition with_score (q : Q) (kv : Z * Py.num) : bool :=
  Qeq_bool (Py.to_Q (snd kv)) q.

(** The spot check in the terms of the specification.  [drawn]: the
    record picked by the [k]-th call of [random.choice]; a sampled record
    is outside when it has no block number or when its block number is
    not within [lo .. hi]; it is found when its block number is within
    [lo .. hi] and some pool event of its block has its transaction hash
    (two missing hashes are equal); it is missed when its block number is
    within [lo .. hi] and no pool event of its block has its transaction
    hash.  [events_at bn] stands for the pool events of the block [bn]. *)
Definition drawn (rand : nat -> nat) (miner_data : list BlockData) (k : nat)
    (block_data : BlockData) : Prop :=
  nth_error miner_data (rand k mod length miner_data) = Some block_data.

Definition sample_outside (lo hi : Z) (block_data : BlockData) : Prop :=
  match block_number block_data with
  | None => True
  | Some bn => bn < lo \/ hi < bn
  end.

Definition sample_found (events_at : Z -> list BlockData) (lo hi : Z)
    (block_data : BlockData) : Prop :=
  exists bn event,
    block_number block_data = Some bn /\ lo <= bn <= hi /\
    In event (events_at bn) /\
    transaction_hash event = transaction_hash block_data.

Definition sample_missed (events_at : Z -> list BlockData) (lo hi : Z)
    (block_data : BlockData) : Prop :=
  exists bn,
    block_number block_data = Some bn /\ lo <= bn <= hi /\
    forall event, In event (events_at bn) ->
                  transaction_hash event <> transaction_hash block_data.

(** ** Concrete inputs used in the examples *)

Module Ex.

Definition prompt : MinerPrompt :=
  mkMinerPrompt "0xA" "0xB" "3000" "2021-05-04 00:00:00" "2021-05-05 00:00:00".

Definition record : BlockData := mkBlockData (Some 12345) (Some "0xabc"%string).

(** An answer with one record, received after one second. *)
Definition answer : MinerAnswer :=
  mkMinerAnswer (Some [record]) (Some "H1"%string) 1.

(** An answer whose ["data"] list is empty. *)
Definition empty_answer : MinerAnswer :=
  mkMinerAnswer (Some []) (Some "H0"%string) 1.

(** A second answer, with another hash and a record outside of the
    block range of [block_range]. *)
Definition stray_record : BlockData := mkBlockData (Some 7) (Some "0xdef"%string).

Definition stray_answer : MinerAnswer :=
  mkMinerAnswer (Some [stray_record]) (Some "H2"%string) 2.

(** Collaborators: the fee string is read as 3000, the block range is
    12000..13000, block 12345 holds the transaction [0xabc] and block
    12346 nothing that matches. *)
Definition parse_int (s : string) : option Z := Some 3000.

Definition block_range (start_dt end_dt : string) : Z * Z := (12000, 13000).

Definition pool_events (ta tb : string) (first_block last_block token_fee : Z)
    : list BlockData :=
  if first_block =? 12345 then [record] else [].

Definition no_pool_events (ta tb : string) (first_block last_block token_fee : Z)
    : list BlockData := [].

Definition incompleted (db : world) (start_dt end_dt : string)
    : list (string * string * string) := [].

Definition first_pick (k : nat) : nat := O.

Definition settings : ValidatorSettings := mkValidatorSettings 420.

End Ex.

(* ================================================================== *)
(** * Properties *)
(* ================================================================== *)

(** ** Dictionaries *)

Lemma keys_app {V : Type} (a b : Py.dict V) :
  Py.keys (a ++ b) = Py.keys a ++ Py.keys b.
Proof. unfold Py.keys. apply map_app. Qed.

Lemma set_fresh {V : Type} (d : Py.dict V) (k : Z) (v : V) :
  ~ In k (Py.keys d) -> Py.set d k v = d ++ [(k, v)].
Proof.
  induction d as [|[k' v'] d IH]; simpl; intros Hk.
  - reflexivity.
  - destruct (Z.eqb_spec k' k) as [->|Hne].
    + exfalso. apply Hk. now left.
    + f_equal. apply IH. intros Hin. apply Hk. now right.
Qed.

Lemma nodup_app_cons_fresh (a : list Z) (k : Z) (b : list Z) :
  NoDup (a ++ k :: b) -> ~ In k a /\ NoDup ((a ++ [k]) ++ b).
Proof.
  intros H. split.
  - apply NoDup_remove_2 in H. intros Hin. apply H. apply in_or_app. now left.
  - now rewrite <- app_assoc.
Qed.

Lemma of_items_from {V : Type} (items acc : Py.dict V) :
  NoDup (Py.keys acc ++ Py.keys items) ->
  fold_left (fun d kv => Py.set d (fst kv) (snd kv)) items acc = acc ++ items.
Proof.
  revert acc. induction items as [|[k v] items IH]; simpl; intros acc H.
  - now rewrite app_nil_r.
  - apply nodup_app_cons_fresh in H. destruct H as [Hk H].
    rewrite (set_fresh _ _ _ Hk). rewrite IH.
    + now rewrite <- app_assoc.
    + now rewrite keys_app.
Qed.

Lemma of_items_well_formed {V : Type} (items : Py.dict V) :
  well_formed items -> Py.of_items items = items.
Proof.
  intros H. unfold Py.of_items. now rewrite of_items_from.
Qed.

(** ** Sorting and slicing *)

Lemma insert_desc_perm {A : Type} (key : A -> Py.num) (x : A) (l : list A) :
  Permutation (PyMore.insert_desc key x l) (x :: l).
Proof.
  induction l as [|y l IH]; simpl.
  - apply Permutation_refl.
  - destruct (Py.lt (key x) (key y)).
    + eapply perm_trans; [apply perm_skip, IH | apply perm_swap].
    + apply Permutation_refl.
Qed.

Lemma sorted_reverse_perm {A : Type} (key : A -> Py.num) (l : list A) :
  Permutation (PyMore.sorted_reverse key l) l.
Proof.
  induction l as [|x l IH]; simpl.
  - apply perm_nil.
  - eapply perm_trans; [apply insert_desc_perm | now apply perm_skip].
Qed.

Lemma Qltb_false (a b : Q) : Py.Qltb a b = false -> (b <= a)%Q.
Proof.
  unfold Py.Qltb. intros H. apply negb_false_iff in H.
  now apply Qle_bool_iff.
Qed.

Lemma Qltb_true (a b : Q) : Py.Qltb a b = true -> (a < b)%Q.
Proof.
  unfold Py.Qltb. intros H. apply negb_true_iff in H.
  apply Qnot_le_lt. intros Hle. apply Qle_bool_iff in Hle. congruence.
Qed.

Lemma insert_desc_sorted (x : Z * Py.num) (l : list (Z * Py.num)) :
  StronglySorted score_ge l ->
  StronglySorted score_ge (PyMore.insert_desc snd x l).
Proof.
  induction 1 as [|y l Hs IH Hy]; simpl.
  - constructor; constructor.
  - destruct (Py.lt (snd x) (snd y)) eqn:E.
    + apply Qltb_true in E. constructor; [exact IH|].
      eapply Permutation_Forall.
      * apply Permutation_sym, insert_desc_perm.
      * constructor; [|exact Hy]. unfold score_ge. now apply Qlt_le_weak.
    + apply Qltb_false in E. constructor.
      * now constructor.
      * constructor; [exact E|].
        eapply Forall_impl; [|exact Hy].
        intros z Hz. unfold score_ge in *. eapply Qle_trans; eauto.
Qed.

Lemma sorted_reverse_sorted (l : list (Z * Py.num)) :
  StronglySorted score_ge (PyMore.sorted_reverse snd l).
Proof.
  induction l as [|x l IH]; simpl.
  - constructor.
  - now apply insert_desc_sorted.
Qed.

Lemma slice_to_firstn {A : Type} (l : list A) (m : Z) :
  exists n, Py.slice_to l m = firstn n l.
Proof.
  unfold Py.slice_to. destruct (0 <=? m); eauto.
Qed.

Lemma slice_to_length {A : Type} (l : list A) (m : Z) :
  0 <= m -> Z.of_nat (length (Py.slice_to l m)) <= m.
Proof.
  intros Hm. unfold Py.slice_to.
  destruct (Z.leb_spec 0 m); [|lia].
  pose proof (firstn_le_length (Z.to_nat m) l).
  rewrite length_firstn. lia.
Qed.

Lemma nodup_firstn {A : Type} (n : nat) (l : list A) :
  NoDup l -> NoDup (firstn n l).
Proof.
  revert n. induction l as [|x l IH]; intros [|n] H; simpl;
    try constructor.
  - inversion H; subst. intros Hin. apply H2.
    rewrite <- (firstn_skipn n l). apply in_or_app. now left.
  - inversion H; subst. now apply IH.
Qed.

Lemma retained_well_formed (d : Py.dict Py.num) (m : Z) :
  well_formed d -> well_formed (retained d m).
Proof.
  unfold well_formed, retained, Py.keys. intros H.
  destruct (slice_to_firstn (PyMore.sorted_reverse snd d) m) as [n ->].
  rewrite <- firstn_map. apply nodup_firstn.
  eapply Permutation_NoDup; [|exact H].
  apply Permutation_map, Permutation_sym, sorted_reverse_perm.
Qed.

Lemma retained_incl (d : Py.dict Py.num) (m : Z) :
  incl (retained d m) d.
Proof.
  unfold retained. intros x Hx.
  destruct (slice_to_firstn (PyMore.sorted_reverse snd d) m) as [n E].
  rewrite E in Hx.
  eapply Permutation_in; [apply sorted_reverse_perm|].
  rewrite <- (firstn_skipn n (PyMore.sorted_reverse snd d)).
  apply in_or_app. now left.
Qed.

Lemma cut_is_retained (d : Py.dict Py.num) (m : Z) :
  well_formed d -> cut_to_max_allowed_weights d m = retained d m.
Proof.
  intros H. unfold cut_to_max_allowed_weights.
  apply of_items_well_formed. now apply retained_well_formed.
Qed.

(** ** Arithmetic of scores *)

Lemma to_Q_add (a b : Py.num) : (Py.to_Q (Py.add a b) == Py.to_Q a + Py.to_Q b)%Q.
Proof.
  destruct a, b; simpl; try reflexivity. now rewrite inject_Z_plus.
Qed.

Lemma to_Q_mul (a b : Py.num) : (Py.to_Q (Py.mul a b) == Py.to_Q a * Py.to_Q b)%Q.
Proof.
  destruct a, b; simpl; reflexivity.
Qed.

Lemma to_Q_sum_from (xs : list Py.num) (a : Py.num) :
  (Py.to_Q (fold_left Py.add xs a) == Py.to_Q a + Qtotal xs)%Q.
Proof.
  revert a. induction xs as [|x xs IH]; simpl; intros a.
  - ring.
  - rewrite IH, to_Q_add. ring.
Qed.

Lemma to_Q_sum (xs : list Py.num) : (Py.to_Q (Py.sum xs) == Qtotal xs)%Q.
Proof.
  unfold Py.sum. rewrite to_Q_sum_from. simpl. ring.
Qed.

Lemma Qtotal_nonneg (xs : list Py.num) :
  Forall (fun x => 0 <= Py.to_Q x)%Q xs -> (0 <= Qtotal xs)%Q.
Proof.
  induction 1 as [|x xs Hx _ IH]; simpl.
  - apply Qle_refl.
  - replace 0%Q with (0 + 0)%Q by reflexivity. now apply Qplus_le_compat.
Qed.

Lemma Qtotal_ge_member (xs : list Py.num) (x : Py.num) :
  Forall (fun x => 0 <= Py.to_Q x)%Q xs -> In x xs -> (Py.to_Q x <= Qtotal xs)%Q.
Proof.
  induction 1 as [|y xs Hy Hxs IH]; simpl; intros Hin.
  - contradiction.
  - destruct Hin as [->|Hin].
    + pose proof (Qtotal_nonneg xs Hxs). lra.
    + specialize (IH Hin). lra.
Qed.

Lemma is_zero_true (x : Py.num) : Py.is_zero x = true -> (Py.to_Q x == 0)%Q.
Proof. unfold Py.is_zero. apply Qeq_bool_iff. Qed.

Lemma is_zero_false (x : Py.num) : Py.is_zero x = false -> ~ (Py.to_Q x == 0)%Q.
Proof. unfold Py.is_zero. apply Qeq_bool_neq. Qed.

Lemma is_zero_false_intro (x : Py.num) : ~ (Py.to_Q x == 0)%Q -> Py.is_zero x = false.
Proof.
  intros H. destruct (Py.is_zero x) eqn:E; [|reflexivity].
  exfalso. apply H. now apply is_zero_true.
Qed.

(** Truncation of a non-negative float rounds down and stays non-negative. *)
Lemma int_float_nonneg (q : Q) :
  (0 <= q)%Q ->
  0 <= Py.int (Py.Float q) /\ (inject_Z (Py.int (Py.Float q)) <= q)%Q.
Proof.
  intros Hq. destruct q as [n d]. simpl.
  assert (Hn : 0 <= n).
  { unfold Qle in Hq. simpl in Hq. lia. }
  rewrite Z.quot_div_nonneg by lia.
  split.
  - apply Z.div_pos; lia.
  - exact (Qfloor_le (n # d)).
Qed.

Lemma share_quotient_nonneg (scores v : Py.num) :
  (0 < Py.to_Q scores)%Q -> (0 <= Py.to_Q v)%Q ->
  (0 <= Py.to_Q (Py.mul v (Py.Int 1000)) / Py.to_Q scores)%Q.
Proof.
  intros Hs Hv. rewrite to_Q_mul. simpl.
  apply Qle_shift_div_l; [exact Hs|].
  assert (0 <= Py.to_Q v * inject_Z 1000)%Q.
  { apply Qmult_le_0_compat; [exact Hv|]. unfold Qle; simpl; lia. }
  lra.
Qed.

Lemma shares_nonneg (scores : Py.num) (c : list (Z * Py.num)) :
  (0 < Py.to_Q scores)%Q ->
  Forall (fun kv => 0 <= Py.to_Q (snd kv))%Q c ->
  Forall (fun kv => 0 <= snd kv) (map (share scores) c).
Proof.
  intros Hs. induction 1 as [|kv c Hkv _ IH]; simpl; constructor.
  - unfold share; cbn [snd].
    now apply int_float_nonneg, share_quotient_nonneg.
  - exact IH.
Qed.

Lemma shares_total_le (scores : Py.num) (c : list (Z * Py.num)) :
  (0 < Py.to_Q scores)%Q ->
  Forall (fun kv => 0 <= Py.to_Q (snd kv))%Q c ->
  (inject_Z (total (map snd (map (share scores) c)))
   <= Qtotal (Py.values c) * inject_Z 1000 / Py.to_Q scores)%Q.
Proof.
  intros Hs. induction 1 as [|kv c Hkv _ IH]; simpl.
  - unfold Qdiv. setoid_replace (0 * inject_Z 1000 * / Py.to_Q scores)%Q with 0%Q by ring.
    apply Qle_refl.
  - rewrite inject_Z_plus.
    pose proof (share_quotient_nonneg scores (snd kv) Hs Hkv) as Hq.
    apply int_float_nonneg in Hq. destruct Hq as [_ Hq].
    assert (E : (Py.to_Q (Py.mul (snd kv) (Py.Int 1000)) / Py.to_Q scores
                 == Py.to_Q (snd kv) * inject_Z 1000 / Py.to_Q scores)%Q).
    { rewrite to_Q_mul. reflexivity. }
    setoid_replace ((Py.to_Q (snd kv) + Qtotal (Py.values c)) * inject_Z 1000
                    / Py.to_Q scores)%Q
      with (Py.to_Q (snd kv) * inject_Z 1000 / Py.to_Q scores
            + Qtotal (Py.values c) * inject_Z 1000 / Py.to_Q scores)%Q
      by (unfold Qdiv; ring).
    apply Qplus_le_compat; [|exact IH].
    eapply Qle_trans; [exact Hq|].
    rewrite E. apply Qle_refl.
Qed.

(** ** The weights emitted by [set_weights] *)

Lemma keys_shares (scores : Py.num) (c : list (Z * Py.num)) :
  Py.keys (map (share scores) c) = Py.keys c.
Proof.
  unfold Py.keys. rewrite map_map. reflexivity.
Qed.

Lemma weigh_from (scores : Py.num) (items : list (Z * Py.num)) (acc : Py.dict Z) :
  Py.is_zero scores = false ->
  NoDup (Py.keys acc ++ Py.keys items) ->
  weigh scores items acc = Py.Ok (acc ++ map (share scores) items).
Proof.
  intros Hs. revert acc.
  induction items as [|[uid score] items IH]; simpl; intros acc H.
  - now rewrite app_nil_r.
  - unfold Py.truediv. rewrite Hs. simpl.
    apply nodup_app_cons_fresh in H. destruct H as [Hk H].
    rewrite (set_fresh _ _ _ Hk). rewrite IH.
    + now rewrite <- app_assoc.
    + now rewrite keys_app.
Qed.

Lemma weigh_zero (scores : Py.num) (items : list (Z * Py.num)) (acc : Py.dict Z) :
  Py.is_zero scores = true -> items <> [] ->
  weigh scores items acc = Py.Err Py.ZeroDivisionError.
Proof.
  intros Hs Hne. destruct items as [|[uid score] items]; [congruence|].
  simpl. unfold Py.truediv. now rewrite Hs.
Qed.

Lemma keys_filter_nodup {V : Type} (f : Z * V -> bool) (d : Py.dict V) :
  well_formed d -> well_formed (filter f d).
Proof.
  unfold well_formed, Py.keys.
  induction d as [|x d IH]; simpl; intros H.
  - constructor.
  - inversion H; subst. destruct (f x); simpl; [constructor|]; auto.
    intros Hin. apply H2. apply in_map_iff in Hin.
    destruct Hin as [y [Hy Hin]]. apply filter_In in Hin.
    apply in_map_iff. exists y. tauto.
Qed.

(** The dictionary of weights that is submitted. *)
Lemma set_weights_votes (settings : ValidatorSettings) (d : Py.dict Py.num)
    (netuid : Z) (client : world) :
  well_formed d ->
  let c := retained d (max_allowed_weights settings) in
  let scores := Py.sum (Py.values c) in
  Py.is_zero scores = false ->
  set_weights settings d netuid client =
  (Py.Ok tt,
   client ++ [Vote (Py.keys (filter nonzero_weight (map (share scores) c)))
                   (Py.values (filter nonzero_weight (map (share scores) c)))
                   netuid]).
Proof.
  intros Hd c scores Hs. unfold set_weights.
  rewrite (cut_is_retained _ _ Hd). fold c. fold scores.
  assert (Hc : well_formed c) by now apply retained_well_formed.
  rewrite (weigh_from scores c [] Hs) by exact Hc.
  simpl app. fold nonzero_weight.
  rewrite of_items_well_formed; [reflexivity|].
  apply keys_filter_nodup. unfold well_formed. now rewrite keys_shares.
Qed.

Lemma set_weights_empty (settings : ValidatorSettings) (d : Py.dict Py.num)
    (netuid : Z) (client : world) :
  well_formed d ->
  retained d (max_allowed_weights settings) = [] ->
  set_weights settings d netuid client = (Py.Ok tt, client ++ [Vote [] [] netuid]).
Proof.
  intros Hd Hc. unfold set_weights.
  rewrite (cut_is_retained _ _ Hd), Hc. reflexivity.
Qed.

Lemma set_weights_raises (settings : ValidatorSettings) (d : Py.dict Py.num)
    (netuid : Z) (client : world) :
  well_formed d ->
  let c := retained d (max_allowed_weights settings) in
  Py.is_zero (Py.sum (Py.values c)) = true -> c <> [] ->
  set_weights settings d netuid client = (Py.Err Py.ZeroDivisionError, client).
Proof.
  intros Hd c Hs Hne. unfold set_weights.
  rewrite (cut_is_retained _ _ Hd). fold c.
  now rewrite (weigh_zero _ c [] Hs Hne).
Qed.

Lemma total_filter_nonzero (ws : list (Z * Z)) :
  total (Py.values (filter nonzero_weight ws)) = total (Py.values ws).
Proof.
  unfold Py.values. induction ws as [|[k w] ws IH]; simpl; [reflexivity|].
  unfold nonzero_weight at 1. simpl.
  destruct (Z.eqb_spec w 0) as [->|Hne]; simpl; rewrite IH; reflexivity.
Qed.

Lemma filter_nonzero_positive (ws : list (Z * Z)) :
  Forall (fun kv => 0 <= snd kv) ws ->
  Forall (fun w => 0 < w) (Py.values (filter nonzero_weight ws)).
Proof.
  unfold Py.values. induction 1 as [|[k w] ws Hw _ IH]; simpl; [constructor|].
  unfold nonzero_weight at 1. simpl in *.
  destruct (Z.eqb_spec w 0) as [->|Hne]; simpl; [exact IH|].
  constructor; [lia|exact IH].
Qed.

Lemma keys_values_length {V : Type} (d : Py.dict V) :
  length (Py.keys d) = length (Py.values d).
Proof. unfold Py.keys, Py.values. now rewrite !length_map. Qed.

Lemma retained_scores_nonneg (d : Py.dict Py.num) (m : Z) :
  (forall k v, In (k, v) d -> 0 <= Py.to_Q v)%Q ->
  Forall (fun kv => 0 <= Py.to_Q (snd kv))%Q (retained d m).
Proof.
  intros H. apply Forall_forall. intros [k v] Hin.
  apply retained_incl in Hin. simpl. eauto.
Qed.

Lemma values_nonneg (c : list (Z * Py.num)) :
  Forall (fun kv => 0 <= Py.to_Q (snd kv))%Q c ->
  Forall (fun x => 0 <= Py.to_Q x)%Q (Py.values c).
Proof.
  unfold Py.values. intros H. apply Forall_forall. intros x Hx.
  apply in_map_iff in Hx. destruct Hx as [kv [<- Hin]].
  eapply Forall_forall in H; eauto.
Qed.

(** A non-zero sum of non-negative scores is positive. *)
Lemma retained_sum_positive (c : list (Z * Py.num)) :
  Forall (fun kv => 0 <= Py.to_Q (snd kv))%Q c ->
  Py.is_zero (Py.sum (Py.values c)) = false ->
  (0 < Py.to_Q (Py.sum (Py.values c)))%Q.
Proof.
  intros Hc Hz. apply is_zero_false in Hz.
  pose proof (Qtotal_nonneg _ (values_nonneg _ Hc)) as Hn.
  rewrite <- to_Q_sum in Hn.
  destruct (Qle_lt_or_eq _ _ Hn) as [Hlt|Heq]; [exact Hlt|].
  exfalso. apply Hz. now symmetry.
Qed.

Lemma nil_or_not {A : Type} (l : list A) : l = [] \/ l <> [].
Proof. destruct l; [now left|right; discriminate]. Qed.

Lemma Qtotal_pos_member (xs : list Py.num) :
  (0 < Qtotal xs)%Q -> exists x, In x xs /\ (0 < Py.to_Q x)%Q.
Proof.
  induction xs as [|x xs IH]; simpl; intros H.
  - exfalso. apply (Qlt_irrefl 0). exact H.
  - destruct (Qlt_le_dec 0 (Py.to_Q x)) as [Hx|Hx].
    + exists x. split; [now left|exact Hx].
    + destruct IH as [y [Hin Hy]]; [lra|].
      exists y. split; [now right|exact Hy].
Qed.

Lemma total_nonneg (ws : list Z) : Forall (fun w => 0 < w) ws -> 0 <= total ws.
Proof.
  induction 1 as [|w ws Hw _ IH]; simpl; lia.
Qed.

(** When some score is positive, the scores that are kept have a positive
    sum: the best score is kept first. *)
Lemma retained_keeps_best (d : Py.dict Py.num) (m : Z) :
  (forall k v, In (k, v) d -> 0 <= Py.to_Q v)%Q ->
  (0 < Py.to_Q (Py.sum (Py.values d)))%Q ->
  retained d m <> [] ->
  Py.is_zero (Py.sum (Py.values (retained d m))) = false.
Proof.
  intros Hnn Hpos Hne.
  rewrite to_Q_sum in Hpos. apply Qtotal_pos_member in Hpos.
  destruct Hpos as [x [Hx Hxpos]].
  unfold Py.values in Hx. apply in_map_iff in Hx.
  destruct Hx as [[k v] [Hv Hin]]. simpl in Hv. subst v.
  pose proof (sorted_reverse_sorted d) as Hs.
  assert (Hin' : In (k, x) (PyMore.sorted_reverse snd d)).
  { eapply Permutation_in; [apply Permutation_sym, sorted_reverse_perm|exact Hin]. }
  pose proof (retained_scores_nonneg d m Hnn) as Hc.
  unfold retained in *.
  destruct (slice_to_firstn (PyMore.sorted_reverse snd d) m) as [n E].
  rewrite E in *.
  destruct (PyMore.sorted_reverse snd d) as [|h t] eqn:Es; [contradiction|].
  destruct n as [|n]; [now simpl in Hne|].
  assert (Hh : (0 < Py.to_Q (snd h))%Q).
  { destruct Hin' as [->|Hin']; [exact Hxpos|].
    apply StronglySorted_inv in Hs. destruct Hs as [_ Hall].
    eapply Forall_forall in Hall; [|exact Hin'].
    unfold score_ge in Hall. simpl in Hall. lra. }
  apply is_zero_false_intro. rewrite to_Q_sum.
  pose proof (Qtotal_ge_member (Py.values (firstn (S n) (h :: t))) (snd h)
                (values_nonneg _ Hc)) as Hge.
  assert (Hmem : In (snd h) (Py.values (firstn (S n) (h :: t)))).
  { simpl. now left. }
  specialize (Hge Hmem). intros Heq. rewrite Heq in Hge. lra.
Qed.

(** C5.  Weight allocation invariant.  For a score dictionary with
    non-negative scores and a non-negative [max_allowed_weights], a call
    of [set_weights] either submits one vote, with at most
    [max_allowed_weights] entries whose weights are all strictly positive
    integers (non-negative, and none equal to zero), or raises
    [ZeroDivisionError] without submitting anything, which happens exactly
    when the scores that are kept are non-empty and sum to zero. *)
Theorem weight_allocation_bounded (settings : ValidatorSettings)
    (score_dict : Py.dict Py.num) (netuid : Z) (client : world) :
  0 <= max_allowed_weights settings ->
  well_formed score_dict ->
  (forall k v, In (k, v) score_dict -> 0 <= Py.to_Q v)%Q ->
  match set_weights settings score_dict netuid client with
  | (Py.Ok _, client') =>
      exists uids weights,
        client' = client ++ [Vote uids weights netuid] /\
        length uids = length weights /\
        Z.of_nat (length weights) <= max_allowed_weights settings /\
        Forall (fun w => 0 <= w /\ w <> 0) weights
  | (Py.Err e, client') =>
      e = Py.ZeroDivisionError /\ client' = client /\
      retained score_dict (max_allowed_weights settings) <> [] /\
      Py.is_zero
        (Py.sum (Py.values (retained score_dict (max_allowed_weights settings))))
      = true
  end.
Proof.
  intros Hm Hd Hnn.
  pose proof (retained_scores_nonneg _ (max_allowed_weights settings) Hnn) as Hc.
  destruct (Py.is_zero
              (Py.sum (Py.values (retained score_dict (max_allowed_weights settings)))))
    eqn:Hz.
  - destruct (nil_or_not (retained score_dict (max_allowed_weights settings)))
      as [Hr|Hr].
    + rewrite (set_weights_empty _ _ _ _ Hd Hr).
      exists [], []. repeat split; simpl; auto; lia.
    + rewrite set_weights_raises; auto.
  - rewrite (set_weights_votes _ _ _ _ Hd Hz).
    eexists _, _. split; [reflexivity|]. split; [apply keys_values_length|].
    split.
    + unfold Py.values. rewrite length_map.
      pose proof (filter_length_le nonzero_weight
                    (map (share (Py.sum (Py.values
                       (retained score_dict (max_allowed_weights settings)))))
                       (retained score_dict (max_allowed_weights settings)))) as Hl.
      rewrite length_map in Hl.
      pose proof (slice_to_length (PyMore.sorted_reverse snd score_dict) _ Hm).
      unfold retained, Py.values in *. lia.
    + eapply Forall_impl;
        [|apply filter_nonzero_positive, shares_nonneg;
          [now apply retained_sum_positive|exact Hc]].
      simpl. intros w Hw. lia.
Qed.

Lemma weight_allocation_bounded_witness :
  exists uids weights,
    set_weights (mkValidatorSettings 2)
      [(1, Py.Float (9 # 10)); (2, Py.Float (3 # 10)); (3, Py.Float (5 # 100))]
      7 []
    = (Py.Ok tt, [] ++ [Vote uids weights 7]) /\
    length uids = length weights /\
    Z.of_nat (length weights) <= 2 /\
    Forall (fun w => 0 <= w /\ w <> 0) weights.
Proof.
  pose proof (weight_allocation_bounded (mkValidatorSettings 2)
                [(1, Py.Float (9 # 10)); (2, Py.Float (3 # 10));
                 (3, Py.Float (5 # 100))] 7 []) as H.
  assert (Hm : 0 <= max_allowed_weights (mkValidatorSettings 2)) by (simpl; lia).
  assert (Hd : well_formed [(1, Py.Float (9 # 10)); (2, Py.Float (3 # 10));
                            (3, Py.Float (5 # 100))]).
  { unfold well_formed. simpl.
    repeat constructor; simpl; intuition discriminate. }
  assert (Hnn : forall k v,
             In (k, v) [(1, Py.Float (9 # 10)); (2, Py.Float (3 # 10));
                        (3, Py.Float (5 # 100))] -> (0 <= Py.to_Q v)%Q).
  { intros k v [E|[E|[E|[]]]]; injection E as _ <-; simpl; discriminate. }
  specialize (H Hm Hd Hnn).
  change (set_weights (mkValidatorSettings 2)
            [(1, Py.Float (9 # 10)); (2, Py.Float (3 # 10));
             (3, Py.Float (5 # 100))] 7 [])
    with (@Py.Ok unit tt, [Vote [1; 2] [750; 250] 7]) in H.
  destruct H as (uids & weights & E & Hl & Hc & Hp).
  exists uids, weights. simpl in E. injection E as <- <-.
  repeat split; simpl; try lia.
  repeat constructor; lia.
Defined.

(** C10.  For a score dictionary whose scores lie in [[0,1]] and have a
    positive sum, [set_weights] does submit a vote, and the integer
    weights of that vote sum to at most 1000 (and to at least 0). *)
Theorem weights_total_at_most_1000 (settings : ValidatorSettings)
    (score_dict : Py.dict Py.num) (netuid : Z) (client : world) :
  well_formed score_dict ->
  (forall k v, In (k, v) score_dict -> 0 <= Py.to_Q v /\ Py.to_Q v <= 1)%Q ->
  (0 < Py.to_Q (Py.sum (Py.values score_dict)))%Q ->
  exists uids weights,
    set_weights settings score_dict netuid client
    = (Py.Ok tt, client ++ [Vote uids weights netuid]) /\
    0 <= total weights <= 1000.
Proof.
  intros Hd Hrange Hpos.
  assert (Hnn : (forall k v, In (k, v) score_dict -> 0 <= Py.to_Q v)%Q).
  { intros k v Hin. now destruct (Hrange k v Hin). }
  pose proof (retained_scores_nonneg _ (max_allowed_weights settings) Hnn) as Hc.
  destruct (nil_or_not (retained score_dict (max_allowed_weights settings)))
    as [Hr|Hr].
  - exists [], []. split; [now apply set_weights_empty|]. simpl. lia.
  - assert (Hz : Py.is_zero
                   (Py.sum (Py.values (retained score_dict (max_allowed_weights settings))))
                 = false).
    { apply retained_keeps_best; auto. }
    eexists _, _. split; [apply (set_weights_votes _ _ _ _ Hd Hz)|].
    pose proof (retained_sum_positive _ Hc Hz) as Hs.
    split.
    + apply total_nonneg, filter_nonzero_positive, shares_nonneg; auto.
    + rewrite total_filter_nonzero.
      pose proof (shares_total_le _ _ Hs Hc) as Hle.
      rewrite Zle_Qle. eapply Qle_trans; [exact Hle|].
      rewrite <- to_Q_sum.
      unfold Qdiv. rewrite <- Qmult_assoc.
      rewrite (Qmult_comm (inject_Z 1000)), Qmult_assoc.
      rewrite Qmult_inv_r by (intros E; rewrite E in Hs; now apply Qlt_irrefl in Hs).
      rewrite Qmult_1_l. apply Qle_refl.
Qed.

Lemma weights_total_at_most_1000_witness :
  exists uids weights,
    set_weights (mkValidatorSettings 2)
      [(1, Py.Float (9 # 10)); (2, Py.Float (3 # 10)); (3, Py.Float (5 # 100))]
      7 []
    = (Py.Ok tt, [] ++ [Vote uids weights 7]) /\
    0 <= total weights <= 1000.
Proof.
  apply (weights_total_at_most_1000 (mkValidatorSettings 2)
           [(1, Py.Float (9 # 10)); (2, Py.Float (3 # 10));
            (3, Py.Float (5 # 100))] 7 []).
  - unfold well_formed. simpl.
    repeat constructor; simpl; intuition discriminate.
  - intros k v [E|[E|[E|[]]]]; injection E as _ <-; simpl; split; discriminate.
  - vm_compute. reflexivity.
Defined.

(** The vote does not depend on the state of the ledger client. *)
Lemma set_weights_state_independent (settings : ValidatorSettings)
    (score_dict : Py.dict Py.num) (netuid : Z) (client1 client2 : world) :
  (exists uids weights,
      set_weights settings score_dict netuid client1
      = (Py.Ok tt, client1 ++ [Vote uids weights netuid]) /\
      set_weights settings score_dict netuid client2
      = (Py.Ok tt, client2 ++ [Vote uids weights netuid]))
  \/
  (exists e,
      set_weights settings score_dict netuid client1 = (Py.Err e, client1) /\
      set_weights settings score_dict netuid client2 = (Py.Err e, client2)).
Proof.
  unfold set_weights.
  destruct (weigh _ _ []) as [ws|e].
  - left. eexists _, _. split; reflexivity.
  - right. exists e. split; reflexivity.
Qed.

Lemma lt_false_of_ge (a b : Py.num) :
  (Py.to_Q b <= Py.to_Q a)%Q -> Py.lt a b = false.
Proof.
  intros H. unfold Py.lt, Py.Qltb. apply negb_false_iff.
  now apply Qle_bool_iff.
Qed.

(** Sorting a sorted list changes nothing. *)
Lemma sorted_reverse_fixed (l : list (Z * Py.num)) :
  StronglySorted score_ge l -> PyMore.sorted_reverse snd l = l.
Proof.
  induction 1 as [|x l Hs IH Hx]; simpl; [reflexivity|].
  rewrite IH. destruct l as [|y r]; simpl; [reflexivity|].
  inversion Hx; subst. unfold score_ge in H1.
  now rewrite (lt_false_of_ge _ _ H1).
Qed.

Lemma firstn_sorted (n : nat) (l : list (Z * Py.num)) :
  StronglySorted score_ge l -> StronglySorted score_ge (firstn n l).
Proof.
  intros H. revert n. induction H as [|x l Hs IH Hx]; intros [|n]; simpl;
    try constructor.
  - apply IH.
  - apply Forall_forall. intros y Hy.
    eapply Forall_forall in Hx; [exact Hx|].
    rewrite <- (firstn_skipn n l). apply in_or_app. now left.
Qed.

Lemma retained_idempotent (d : Py.dict Py.num) (m : Z) :
  0 <= m -> retained (retained d m) m = retained d m.
Proof.
  intros Hm. unfold retained, Py.slice_to.
  destruct (Z.leb_spec 0 m); [|lia].
  rewrite sorted_reverse_fixed
    by (apply firstn_sorted, sorted_reverse_sorted).
  rewrite firstn_firstn. now rewrite Nat.min_id.
Qed.

(** C9.  The allocation is a function of the score dictionary and of the
    settings alone, and capping is idempotent.  For a score dictionary
    and a non-negative [max_allowed_weights]: (1) two runs of
    [set_weights] on the same score dictionary, from any two states of
    the ledger client, either both submit the very same vote (same uids
    and weights, in the same order) or both raise the same exception and
    submit nothing; (2) cutting twice is cutting once; (3) running the
    pipeline on the dictionary that was already cut gives the same
    outcome as running it on the dictionary itself. *)
Theorem allocation_deterministic (settings : ValidatorSettings)
    (score_dict : Py.dict Py.num) (netuid : Z) (client1 client2 : world) :
  0 <= max_allowed_weights settings ->
  well_formed score_dict ->
  ((exists uids weights,
       set_weights settings score_dict netuid client1
       = (Py.Ok tt, client1 ++ [Vote uids weights netuid]) /\
       set_weights settings score_dict netuid client2
       = (Py.Ok tt, client2 ++ [Vote uids weights netuid]))
   \/
   (exists e,
       set_weights settings score_dict netuid client1 = (Py.Err e, client1) /\
       set_weights settings score_dict netuid client2 = (Py.Err e, client2)))
  /\
  cut_to_max_allowed_weights
    (cut_to_max_allowed_weights score_dict (max_allowed_weights settings))
    (max_allowed_weights settings)
  = cut_to_max_allowed_weights score_dict (max_allowed_weights settings)
  /\
  set_weights settings
    (cut_to_max_allowed_weights score_dict (max_allowed_weights settings))
    netuid client1
  = set_weights settings score_dict netuid client1.
Proof.
  intros Hm Hd.
  assert (Hcut : cut_to_max_allowed_weights
                   (cut_to_max_allowed_weights score_dict (max_allowed_weights settings))
                   (max_allowed_weights settings)
                 = cut_to_max_allowed_weights score_dict (max_allowed_weights settings)).
  { rewrite (cut_is_retained score_dict _ Hd).
    rewrite cut_is_retained by now apply retained_well_formed.
    now apply retained_idempotent. }
  split; [apply set_weights_state_independent|].
  split; [exact Hcut|].
  unfold set_weights. now rewrite Hcut.
Qed.

Lemma allocation_deterministic_witness :
  ((exists uids weights,
       set_weights (mkValidatorSettings 2)
         [(1, Py.Float (9 # 10)); (2, Py.Float (3 # 10)); (3, Py.Float (5 # 100))]
         7 []
       = (Py.Ok tt, [] ++ [Vote uids weights 7]) /\
       set_weights (mkValidatorSettings 2)
         [(1, Py.Float (9 # 10)); (2, Py.Float (3 # 10)); (3, Py.Float (5 # 100))]
         7 [Vote [1] [1000] 7]
       = (Py.Ok tt, [Vote [1] [1000] 7] ++ [Vote uids weights 7]))
   \/
   (exists e,
       set_weights (mkValidatorSettings 2)
         [(1, Py.Float (9 # 10)); (2, Py.Float (3 # 10)); (3, Py.Float (5 # 100))]
         7 []
       = (Py.Err e, []) /\
       set_weights (mkValidatorSettings 2)
         [(1, Py.Float (9 # 10)); (2, Py.Float (3 # 10)); (3, Py.Float (5 # 100))]
         7 [Vote [1] [1000] 7]
       = (Py.Err e, [Vote [1] [1000] 7])))
  /\
  cut_to_max_allowed_weights
    (cut_to_max_allowed_weights
       [(1, Py.Float (9 # 10)); (2, Py.Float (3 # 10)); (3, Py.Float (5 # 100))] 2)
    2
  = cut_to_max_allowed_weights
      [(1, Py.Float (9 # 10)); (2, Py.Float (3 # 10)); (3, Py.Float (5 # 100))] 2
  /\
  set_weights (mkValidatorSettings 2)
    (cut_to_max_allowed_weights
       [(1, Py.Float (9 # 10)); (2, Py.Float (3 # 10)); (3, Py.Float (5 # 100))] 2)
    7 []
  = set_weights (mkValidatorSettings 2)
      [(1, Py.Float (9 # 10)); (2, Py.Float (3 # 10)); (3, Py.Float (5 # 100))]
      7 [].
Proof.
  apply (allocation_deterministic (mkValidatorSettings 2)
           [(1, Py.Float (9 # 10)); (2, Py.Float (3 # 10));
            (3, Py.Float (5 # 100))] 7 [] [Vote [1] [1000] 7]).
  - simpl. lia.
  - unfold well_formed. simpl.
    repeat constructor; simpl; intuition discriminate.
Defined.

(** ** Consensus selection *)

Lemma max_by_fold {A : Type} (key : A -> nat) (r pre : list A) (best : A)
    (post : list A) :
  (forall h, In h pre -> (key h < key best)%nat) ->
  (forall h, In h post -> (key h <= key best)%nat) ->
  exists w pre' post',
    fold_left (fun b y => if Nat.ltb (key b) (key y) then y else b) r best = w /\
    pre ++ best :: post ++ r = pre' ++ w :: post' /\
    (forall h, In h pre' -> (key h < key w)%nat) /\
    (forall h, In h post' -> (key h <= key w)%nat).
Proof.
  revert pre best post.
  induction r as [|y r IH]; intros pre best post Hpre Hpost; simpl.
  - exists best, pre, post. rewrite app_nil_r. auto.
  - destruct (Nat.ltb_spec (key best) (key y)) as [Hlt|Hge].
    + destruct (IH (pre ++ best :: post) y []) as (w & pre' & post' & E & L & P1 & P2).
      * intros h Hin. apply in_app_or in Hin. destruct Hin as [Hin|[<-|Hin]].
        -- specialize (Hpre h Hin). lia.
        -- exact Hlt.
        -- specialize (Hpost h Hin). lia.
      * intros h [].
      * exists w, pre', post'. repeat split; auto.
        rewrite <- L. simpl. rewrite <- app_assoc. reflexivity.
    + destruct (IH pre best (post ++ [y])) as (w & pre' & post' & E & L & P1 & P2).
      * exact Hpre.
      * intros h Hin. apply in_app_or in Hin. destruct Hin as [Hin|[<-|[]]]; auto.
      * exists w, pre', post'. repeat split; auto.
        rewrite <- L. rewrite <- app_assoc. reflexivity.
Qed.

(** [max(xs, key=key)] returns the first element whose key is maximal. *)
Lemma max_by_spec {A : Type} (key : A -> nat) (xs : list A) :
  xs <> [] ->
  exists w pre post,
    Py.max_by key xs = Py.Ok w /\
    xs = pre ++ w :: post /\
    (forall h, In h pre -> (key h < key w)%nat) /\
    (forall h, In h post -> (key h <= key w)%nat).
Proof.
  destruct xs as [|x r]; [congruence|]. intros _.
  destruct (max_by_fold key r [] x []) as (w & pre & post & E & L & P1 & P2).
  - intros h [].
  - intros h [].
  - exists w, pre, post. simpl. rewrite E. simpl in L. auto.
Qed.

Lemma max_by_maximal {A : Type} (key : A -> nat) (xs : list A) (w : A) :
  Py.max_by key xs = Py.Ok w ->
  In w xs /\ forall h, In h xs -> (key h <= key w)%nat.
Proof.
  intros H. destruct xs as [|x r]; [discriminate|].
  destruct (max_by_spec key (x :: r)) as (w' & pre & post & E & L & P1 & P2);
    [discriminate|].
  rewrite E in H. injection H as ->. rewrite L. split.
  - apply in_or_app. right. now left.
  - intros h Hin. apply in_app_or in Hin. destruct Hin as [Hin|[<-|Hin]].
    + specialize (P1 h Hin). lia.
    + lia.
    + auto.
Qed.

Lemma set_order_nonempty (set_iter : list string -> list string)
    (hashes : list string) :
  set_order_ok set_iter -> hashes <> [] -> set_iter hashes <> [].
Proof.
  intros Hok Hne. destruct hashes as [|h t]; [congruence|].
  destruct (Hok (h :: t)) as [_ Hin].
  intros E. rewrite E in Hin. apply (Hin h). now left.
Qed.

(** The members of the winning group: the replies, and only the replies,
    that carry the winning hash. *)
Lemma trust_of_members (items : list (Z * option MinerAnswer)) (mh : string) :
  (forall k a, In (k, Some a) items -> overall_data_hash a <> None) ->
  exists trust,
    trust_of items mh = Py.Ok trust /\
    forall k a, In (k, a) trust <->
                In (k, Some a) items /\ overall_data_hash a = Some mh.
Proof.
  induction items as [|[k [a|]] items IH]; intros Hh.
  - exists []. split; [reflexivity|]. intros k a. simpl. tauto.
  - destruct IH as [t [Et Ht]].
    { intros k' a' Hin. apply (Hh k' a'). now right. }
    simpl. destruct (overall_data_hash a) as [h|] eqn:Eh.
    2:{ exfalso. apply (Hh k a); [now left|exact Eh]. }
    rewrite Et. simpl.
    destruct (String.eqb_spec h mh) as [->|Hne].
    + eexists. split; [reflexivity|]. intros k' a'. simpl. rewrite Ht. split.
      * intros [E|[H1 H2]]; [injection E as <- <-; auto|auto].
      * intros [[E|H1] H2]; [injection E as <- <-; auto|auto].
    + exists t. split; [reflexivity|]. intros k' a'. rewrite Ht. simpl. split.
      * intros [H1 H2]. auto.
      * intros [[E|H1] H2]; [|auto].
        injection E as <- <-. congruence.
  - destruct IH as [t [Et Ht]].
    { intros k' a' Hin. apply (Hh k' a'). now right. }
    exists t. simpl. split; [exact Et|].
    intros k' a'. rewrite Ht. split.
    + intros [H1 H2]. auto.
    + intros [[E|H1] H2]; [discriminate|auto].
Qed.

Lemma reversed_order_ok : set_order_ok reversed_order.
Proof.
  intros xs. unfold reversed_order. split.
  - apply NoDup_rev, NoDup_nodup.
  - intros x. rewrite <- in_rev. apply nodup_In.
Qed.

Lemma input_order_ok : set_order_ok input_order.
Proof.
  intros xs. unfold input_order. split.
  - apply NoDup_rev, NoDup_nodup.
  - intros x. rewrite <- in_rev, nodup_In, <- in_rev. tauto.
Qed.

(** When one group is strictly larger than every other one, the selection
    of the specification names it. *)
Lemma spec_select_unique (hashes : list string) (w : string) :
  In w hashes ->
  (forall h, In h hashes -> h <> w ->
             (count_occ string_dec hashes h < count_occ string_dec hashes w)%nat) ->
  spec_select hashes = Py.Ok w.
Proof.
  intros Hw Hlt. unfold spec_select.
  destruct (max_by_spec (count_occ string_dec hashes) hashes)
    as (w' & pre & post & E & L & P1 & P2).
  { intros ->. contradiction. }
  rewrite E. f_equal.
  destruct (string_dec w' w) as [->|Hne]; [reflexivity|].
  exfalso.
  apply max_by_maximal in E. destruct E as [Hin Hmax].
  specialize (Hlt w' Hin Hne). specialize (Hmax w Hw). lia.
Qed.

(** C3 (amended).  For every iteration order of the set of hashes and
    every non-empty sequence of hashes, selection returns a hash [w] of
    the sequence whose group is the largest; among equally large groups
    the winner is the first one in the iteration order of the set, not
    in the input sequence; when the largest group is unique the winner is
    the hash that the specification names; and the supporting membership
    is exactly the replies that carry [w]. *)
Theorem consensus_largest_group_wins (set_iter : list string -> list string)
    (hashes : list string) :
  set_order_ok set_iter ->
  hashes <> [] ->
  exists w pre post,
    most_common set_iter hashes = Py.Ok w /\
    In w hashes /\
    (forall h, In h hashes ->
       (count_occ string_dec hashes h <= count_occ string_dec hashes w)%nat) /\
    set_iter hashes = pre ++ w :: post /\
    (forall h, In h pre ->
       (count_occ string_dec hashes h < count_occ string_dec hashes w)%nat) /\
    ((forall h, In h hashes -> h <> w ->
        (count_occ string_dec hashes h < count_occ string_dec hashes w)%nat) ->
     spec_select hashes = Py.Ok w) /\
    (forall items,
        (forall k a, In (k, Some a) items -> overall_data_hash a <> None) ->
        exists trust,
          trust_of items w = Py.Ok trust /\
          forall k a, In (k, a) trust <->
                      In (k, Some a) items /\ overall_data_hash a = Some w).
Proof.
  intros Hok Hne.
  pose proof (set_order_nonempty _ _ Hok Hne) as Hne'.
  destruct (max_by_spec (count_occ string_dec hashes) (set_iter hashes) Hne')
    as (w & pre & post & E & L & P1 & P2).
  destruct (Hok hashes) as [_ Hin].
  assert (Hw : In w hashes).
  { apply Hin. rewrite L. apply in_or_app. right. now left. }
  exists w, pre, post. unfold most_common.
  split; [exact E|]. split; [exact Hw|]. split.
  { intros h Hh. apply max_by_maximal in E. destruct E as [_ Hmax].
    apply Hmax. now apply Hin. }
  split; [exact L|]. split; [exact P1|]. split.
  - intros Huniq. now apply spec_select_unique.
  - intros items Hitems. now apply trust_of_members.
Qed.

Lemma consensus_largest_group_wins_witness :
  exists w pre post,
    most_common input_order ["H1"; "H1"; "H2"; "H1"; "H1"]%string = Py.Ok w /\
    In w ["H1"; "H1"; "H2"; "H1"; "H1"]%string /\
    (forall h, In h ["H1"; "H1"; "H2"; "H1"; "H1"]%string ->
       (count_occ string_dec ["H1"; "H1"; "H2"; "H1"; "H1"]%string h
        <= count_occ string_dec ["H1"; "H1"; "H2"; "H1"; "H1"]%string w)%nat) /\
    input_order ["H1"; "H1"; "H2"; "H1"; "H1"]%string = pre ++ w :: post /\
    (forall h, In h pre ->
       (count_occ string_dec ["H1"; "H1"; "H2"; "H1"; "H1"]%string h
        < count_occ string_dec ["H1"; "H1"; "H2"; "H1"; "H1"]%string w)%nat) /\
    ((forall h, In h ["H1"; "H1"; "H2"; "H1"; "H1"]%string -> h <> w ->
        (count_occ string_dec ["H1"; "H1"; "H2"; "H1"; "H1"]%string h
         < count_occ string_dec ["H1"; "H1"; "H2"; "H1"; "H1"]%string w)%nat) ->
     spec_select ["H1"; "H1"; "H2"; "H1"; "H1"]%string = Py.Ok w) /\
    (forall items,
        (forall k a, In (k, Some a) items -> overall_data_hash a <> None) ->
        exists trust,
          trust_of items w = Py.Ok trust /\
          forall k a, In (k, a) trust <->
                      In (k, Some a) items /\ overall_data_hash a = Some w).
Proof.
  apply (consensus_largest_group_wins input_order
           ["H1"; "H1"; "H2"; "H1"; "H1"]%string).
  - exact input_order_ok.
  - discriminate.
Defined.

(** C3, as stated, fails.  With the two hashes [a] and [b] in this input
    order, each carried by one reply, the set may be iterated as [b], [a]
    (CPython does so for some hash seeds): the code then selects [b],
    although [a] appears first in the input sequence. *)
Lemma tie_follows_set_order_not_input_order :
  set_order_ok reversed_order /\
  reversed_order ["a"; "b"]%string = ["b"; "a"]%string /\
  count_occ string_dec ["a"; "b"]%string "a"%string
  = count_occ string_dec ["a"; "b"]%string "b"%string /\
  most_common reversed_order ["a"; "b"]%string = Py.Ok "b"%string /\
  spec_select ["a"; "b"]%string = Py.Ok "a"%string /\
  most_common reversed_order ["a"; "b"]%string <> spec_select ["a"; "b"]%string.
Proof.
  split; [exact reversed_order_ok|].
  repeat split; try reflexivity.
  vm_compute. discriminate.
Qed.

(** ** Scoring *)

Lemma score_miner_arity (x y : pyobj) : _score_miner [x; y] = Py.Err Py.TypeError.
Proof. reflexivity. Qed.

(** Whatever it is given, the body of [_score_miner] raises on an answer
    that is not [None]: the operator [^] is applied to a float. *)
Lemma score_miner_answer_raises (p g : pyobj) (a : MinerAnswer) :
  exists e, _score_miner [p; PyAnswer a; g] = Py.Err e.
Proof.
  unfold _score_miner, _score_miner_body.
  destruct (get_data (PyAnswer a)) as [md|e]; simpl; [|eauto].
  destruct (correct_entries (PyAnswer a) g (seq 0 (length md))) as [es|e];
    simpl; [|eauto].
  unfold Py.truediv.
  destruct (Py.is_zero (Py.Int (Z.of_nat (length md)))); simpl; eauto.
Qed.

Lemma accuracy_loop_cases (items : list (Z * option MinerAnswer))
    (trust : pyobj) (acc : Py.dict Py.num) :
  (accuracy_loop items trust acc = Py.Ok acc /\
   Forall (fun kv => snd kv = None) items)
  \/ accuracy_loop items trust acc = Py.Err Py.TypeError.
Proof.
  induction items as [|[uid [a|]] items IH]; simpl.
  - left. split; [reflexivity|constructor].
  - right. reflexivity.
  - destruct IH as [[E F]|E]; [left|right; exact E].
    split; [exact E|]. constructor; [reflexivity|exact F].
Qed.

Lemma process_time_seconds_absent (items : list (Z * option MinerAnswer))
    (acc : Py.dict Py.num) (uid : Z) :
  In (uid, None) items ->
  process_time_seconds items acc = Py.Err Py.TypeError.
Proof.
  revert acc. induction items as [|[k [a|]] items IH]; simpl; intros acc Hin.
  - contradiction.
  - destruct Hin as [E|Hin]; [discriminate|]. now apply IH.
  - reflexivity.
Qed.

Lemma latency_normalization_empty :
  latency_normalization [] = Py.Err Py.ValueError.
Proof. reflexivity. Qed.

Lemma score_miners_raises (miner_results : Py.iterable (Z * option MinerAnswer))
    (trust : pyobj) :
  score_miners miner_results trust = Py.Err Py.TypeError \/
  score_miners miner_results trust = Py.Err Py.ValueError.
Proof.
  unfold score_miners.
  destruct miner_results as [l|r]; simpl.
  - destruct (accuracy_loop_cases l trust []) as [[E F]|E]; rewrite E; simpl;
      [|now left].
    destruct l as [|[uid o] l]; simpl.
    + right. reflexivity.
    + inversion F; subst. simpl in *. subst o. left. reflexivity.
  - destruct (accuracy_loop_cases r trust []) as [[E F]|E]; rewrite E; simpl;
      [|now left].
    right. reflexivity.
Qed.

(** C1.  No composite score is ever recorded.  Every call of
    [score_miners], on a list or on a [zip] object, raises [TypeError] or
    [ValueError]: a reply that is present is scored by a call of
    [_score_miner] with two arguments instead of three.  Called with
    three arguments on an answer that is present, [_score_miner] raises
    too, since it applies [^] to a float.  So no accuracy and no mean in
    [[0,1]] is produced for a replying worker. *)
Theorem scoring_records_no_composite :
  (forall miner_results trust,
      score_miners miner_results trust = Py.Err Py.TypeError \/
      score_miners miner_results trust = Py.Err Py.ValueError) /\
  (forall uid a rest trust,
      score_miners (Py.PyList ((uid, Some a) :: rest)) trust
      = Py.Err Py.TypeError) /\
  (forall p a g, exists e, _score_miner [p; PyAnswer a; g] = Py.Err e) /\
  score_miners (Py.PyList [(1, Some Ex.answer)]) (PyAnswer Ex.answer)
  = Py.Err Py.TypeError /\
  _score_miner [PyPrompt Ex.prompt; PyAnswer Ex.answer; PyAnswer Ex.answer]
  = Py.Err Py.TypeError.
Proof.
  split; [exact score_miners_raises|].
  split; [reflexivity|].
  split; [intros; apply score_miner_answer_raises|].
  split; reflexivity.
Qed.

(** C8.  An answer whose ["data"] list is empty makes [_score_miner]
    divide by zero: the accuracy is not 0, the call raises
    [ZeroDivisionError]. *)
Theorem empty_payload_divides_by_zero (p g : pyobj) (a : MinerAnswer) :
  data a = Some [] ->
  _score_miner [p; PyAnswer a; g] = Py.Err Py.ZeroDivisionError.
Proof.
  intros Hd. unfold _score_miner, _score_miner_body. simpl.
  rewrite Hd. reflexivity.
Qed.

Lemma empty_payload_divides_by_zero_witness :
  _score_miner [PyPrompt Ex.prompt; PyAnswer Ex.empty_answer; PyAnswer Ex.answer]
  = Py.Err Py.ZeroDivisionError.
Proof.
  apply (empty_payload_divides_by_zero (PyPrompt Ex.prompt) (PyAnswer Ex.answer)
           Ex.empty_answer).
  reflexivity.
Defined.

(** C4.  A reply that is absent is skipped by the accuracy loop, but the
    process times are read from every reply, absent ones included: the
    dictionary of process times, and with it [score_miners] on a list of
    replies, raises [TypeError] as soon as one reply is absent. *)
Theorem absent_reply_breaks_latency (l : list (Z * option MinerAnswer))
    (uid : Z) (trust : pyobj) :
  In (uid, None) l ->
  (forall rest acc,
      accuracy_loop ((uid, None) :: rest) trust acc
      = accuracy_loop rest trust acc) /\
  (forall acc, process_time_seconds l acc = Py.Err Py.TypeError) /\
  score_miners (Py.PyList l) trust = Py.Err Py.TypeError.
Proof.
  intros Hin. split; [reflexivity|]. split.
  - intros acc. eapply process_time_seconds_absent; eauto.
  - unfold score_miners. simpl.
    destruct (accuracy_loop_cases l trust []) as [[E _]|E]; rewrite E; simpl;
      [|reflexivity].
    rewrite (process_time_seconds_absent l [] uid Hin). reflexivity.
Qed.

Lemma absent_reply_breaks_latency_witness :
  (forall rest acc,
      accuracy_loop ((1, None) :: rest) (PyAnswer Ex.answer) acc
      = accuracy_loop rest (PyAnswer Ex.answer) acc) /\
  (forall acc, process_time_seconds [(1, None)] acc = Py.Err Py.TypeError) /\
  score_miners (Py.PyList [(1, None)]) (PyAnswer Ex.answer)
  = Py.Err Py.TypeError.
Proof.
  apply (absent_reply_breaks_latency [(1, None)] 1 (PyAnswer Ex.answer)).
  simpl. left. reflexivity.
Defined.

Lemma fold_pick_in {A : Type} (better : A -> A -> bool) (r : list A) (x : A) :
  In (fold_left (fun best y => if better best y then y else best) r x) (x :: r).
Proof.
  revert x. induction r as [|y r IH]; intros x; simpl.
  - now left.
  - destruct (better x y).
    + right. apply IH.
    + destruct (IH x) as [E|Hin]; [left; exact E|right; now right].
Qed.

Lemma max_in (xs : list Py.num) (m : Py.num) : Py.max xs = Py.Ok m -> In m xs.
Proof.
  destruct xs as [|x r]; simpl; [discriminate|].
  intros H. injection H as <-.
  apply (fold_pick_in (fun best y => Py.lt best y)).
Qed.

Lemma min_in (xs : list Py.num) (m : Py.num) : Py.min xs = Py.Ok m -> In m xs.
Proof.
  destruct xs as [|x r]; simpl; [discriminate|].
  intros H. injection H as <-.
  apply (fold_pick_in (fun best y => Py.lt y best)).
Qed.

Lemma to_Q_sub (a b : Py.num) : (Py.to_Q (Py.sub a b) == Py.to_Q a - Py.to_Q b)%Q.
Proof.
  destruct a, b; simpl; try reflexivity.
  unfold Z.sub. rewrite inject_Z_plus, inject_Z_opp. reflexivity.
Qed.

(** C2.  When all the process times are equal (a single replying worker
    included), the latency normalization divides by [max_time - min_time
    = 0]: it raises [ZeroDivisionError] instead of giving every worker
    the latency score 1. *)
Theorem equal_latencies_divide_by_zero (process_time_score : Py.dict Py.num)
    (t : Q) :
  process_time_score <> [] ->
  (forall uid x, In (uid, x) process_time_score -> Py.to_Q x == t)%Q ->
  latency_normalization process_time_score = Py.Err Py.ZeroDivisionError.
Proof.
  intros Hne Heq. unfold latency_normalization.
  assert (Hval : forall x, In x (Py.values process_time_score) -> (Py.to_Q x == t)%Q).
  { intros x Hx. unfold Py.values in Hx. apply in_map_iff in Hx.
    destruct Hx as [[uid y] [<- Hin]]. simpl. eauto. }
  destruct (Py.max (Py.values process_time_score)) as [mx|e] eqn:Emax.
  2:{ destruct process_time_score; [congruence|discriminate]. }
  destruct (Py.min (Py.values process_time_score)) as [mn|e] eqn:Emin.
  2:{ destruct process_time_score; [congruence|discriminate]. }
  simpl. apply max_in in Emax. apply min_in in Emin.
  destruct process_time_score as [|[uid pt] rest]; [congruence|].
  simpl. unfold Py.truediv.
  assert (Hz : Py.is_zero (Py.sub mx mn) = true).
  { unfold Py.is_zero. apply Qeq_bool_iff. rewrite to_Q_sub.
    rewrite (Hval _ Emax), (Hval _ Emin). ring. }
  rewrite Hz. reflexivity.
Qed.

Lemma equal_latencies_divide_by_zero_witness :
  latency_normalization [(1, Py.Float 1)] = Py.Err Py.ZeroDivisionError.
Proof.
  apply (equal_latencies_divide_by_zero [(1, Py.Float 1)] 1).
  - discriminate.
  - intros uid x [E|[]]. injection E as _ <-. reflexivity.
Defined.

(** ** Spot check *)

Section SpotCheck.

Variable parse_int : string -> option Z.
Variable get_block_number_range : string -> string -> Z * Z.
Variable get_pool_events_by_token_pairs :
  string -> string -> Z -> Z -> Z -> list BlockData.
Variable fetch_incompleted_token_pairs :
  world -> string -> string -> list (string * string * string).
Variable set_iter : list string -> list string.

Variables ta tb : string.
Variables token_fee block_number_start block_number_end : Z.
Variable miner_data : list BlockData.

Local Abbreviation verdicts rand :=
  (verdict_at get_pool_events_by_token_pairs rand ta tb token_fee
     block_number_start block_number_end miner_data).

Local Abbreviation loop rand :=
  (check_loop get_pool_events_by_token_pairs rand ta tb token_fee
     block_number_start block_number_end miner_data).

(** The loop returns what the first decisive verdict says. *)
Lemma check_loop_decides (rand : nat -> nat) (n k : nat) :
  miner_data <> [] ->
  loop rand n k = Py.Ok (first_decisive (map (verdicts rand) (seq k n))).
Proof.
  intros Hne. revert k.
  induction n as [|n IH]; intros k; simpl; [reflexivity|].
  unfold random_choice, index, verdict_at at 1.
  destruct miner_data as [|d0 dr] eqn:Ed; [congruence|].
  rewrite <- Ed in *.
  assert (Hlt : (rand k mod length miner_data < length miner_data)%nat).
  { apply Nat.mod_upper_bound. rewrite Ed. simpl. lia. }
  destruct (nth_error miner_data (rand k mod length miner_data)) as [bd|] eqn:En.
  2:{ apply nth_error_None in En. lia. }
  simpl. unfold verdict_of.
  destruct (block_number bd) as [bn|]; [|reflexivity].
  destruct (out_of_range bn block_number_start block_number_end); [reflexivity|].
  destruct (found_in_pools bd _); [reflexivity|].
  apply IH.
Qed.

Lemma first_decisive_skip (v : nat -> verdict) (n start k : nat) :
  (k < n)%nat ->
  (forall j, (j < k)%nat -> v (start + j)%nat = NoMatch) ->
  first_decisive (map v (seq start n))
  = first_decisive (map v (seq (start + k) (n - k))).
Proof.
  revert n start. induction k as [|k IH]; intros n start Hk Hpre.
  - now rewrite Nat.add_0_r, Nat.sub_0_r.
  - destruct n as [|n]; [lia|]. simpl.
    pose proof (Hpre O ltac:(lia)) as H0. rewrite Nat.add_0_r in H0.
    rewrite H0. rewrite (IH n (S start)).
    + now rewrite Nat.add_succ_r.
    + lia.
    + intros j Hj. specialize (Hpre (S j) ltac:(lia)).
      now rewrite Nat.add_succ_r in Hpre.
Qed.

Lemma first_decisive_at (v : nat -> verdict) (n k : nat) :
  (k < n)%nat ->
  (forall j, (j < k)%nat -> v j = NoMatch) ->
  v k <> NoMatch ->
  first_decisive (map v (seq 0 n)) = first_decisive [v k].
Proof.
  intros Hk Hpre Hv.
  rewrite (first_decisive_skip v n 0 k Hk) by (intros j Hj; now apply Hpre).
  simpl. destruct (n - k)%nat as [|m] eqn:E; [lia|].
  simpl. destruct (v k); congruence.
Qed.

Lemma first_decisive_none (v : nat -> verdict) (n start : nat) :
  (forall j, (j < n)%nat -> v (start + j)%nat = NoMatch) ->
  first_decisive (map v (seq start n)) = false.
Proof.
  revert start. induction n as [|n IH]; intros start H; simpl; [reflexivity|].
  pose proof (H O ltac:(lia)) as H0. rewrite Nat.add_0_r in H0. rewrite H0.
  apply IH. intros j Hj. specialize (H (S j) ltac:(lia)).
  now rewrite Nat.add_succ_r in H.
Qed.

Lemma verdicts_agree (rand rand' : nat -> nat) (n : nat) :
  (forall k, (k < n)%nat -> rand' k = rand k) ->
  map (verdicts rand') (seq 0 n) = map (verdicts rand) (seq 0 n).
Proof.
  intros H. apply map_ext_in. intros k Hk. apply in_seq in Hk.
  unfold verdict_at. rewrite H by lia. reflexivity.
Qed.

End SpotCheck.

(** A rejection by the spot check ends the step at once. *)
Lemma rejection_abandons_round
    (parse_int : string -> option Z)
    (get_block_number_range : string -> string -> Z * Z)
    (get_pool_events_by_token_pairs : string -> string -> Z -> Z -> Z -> list BlockData)
    (fetch_incompleted_token_pairs : world -> string -> string -> list (string * string * string))
    (rand : nat -> nat) (set_iter : list string -> list string)
    (module_ids : list Z) (miner_answers : list (option MinerAnswer))
    (miner_prompt : MinerPrompt) (settings : ValidatorSettings) (netuid : Z)
    (db : world) (hashes : list string) (mh : string) (uid : Z)
    (answer : MinerAnswer) (rest : list (Z * MinerAnswer)) :
  overall_hashes_of miner_answers = Py.Ok hashes ->
  hashes <> [] ->
  most_common set_iter hashes = Py.Ok mh ->
  trust_of (combine module_ids miner_answers) mh = Py.Ok ((uid, answer) :: rest) ->
  check_miner_answer parse_int get_block_number_range
    get_pool_events_by_token_pairs rand miner_prompt answer = Py.Ok false ->
  validate_step parse_int get_block_number_range get_pool_events_by_token_pairs
    fetch_incompleted_token_pairs rand set_iter
    module_ids miner_answers miner_prompt settings netuid db
  = (Py.Ok AnswersNotValid, db).
Proof.
  intros Hh Hne Hmc Ht Hc.
  unfold validate_step, PyMore.bindM, PyMore.lift, PyMore.ret. simpl.
  rewrite Hh. destruct hashes as [|h hs]; [congruence|].
  rewrite Hmc, Ht. simpl. rewrite Hc. reflexivity.
Qed.

(** ** The validation step *)

Lemma overall_hashes_of_absent (miner_answers : list (option MinerAnswer)) :
  Forall (fun a => a = None) miner_answers ->
  overall_hashes_of miner_answers = Py.Ok [].
Proof.
  induction 1 as [|a l Ha _ IH]; simpl; [reflexivity|].
  subst a. exact IH.
Qed.

(** C7.  When no reply carries a payload (all workers timed out or
    failed), [validate_step] returns after having logged that no miner
    gave a valid answer: nothing is checked, saved or scored, and no vote
    is cast; the database and the ledger client are left as they were. *)
Theorem no_usable_reply_no_consensus
    (parse_int : string -> option Z)
    (get_block_number_range : string -> string -> Z * Z)
    (get_pool_events_by_token_pairs : string -> string -> Z -> Z -> Z -> list BlockData)
    (fetch_incompleted_token_pairs : world -> string -> string -> list (string * string * string))
    (rand : nat -> nat) (set_iter : list string -> list string)
    (module_ids : list Z) (miner_answers : list (option MinerAnswer))
    (miner_prompt : MinerPrompt) (settings : ValidatorSettings) (netuid : Z)
    (db : world) :
  Forall (fun a => a = None) miner_answers ->
  validate_step parse_int get_block_number_range get_pool_events_by_token_pairs
    fetch_incompleted_token_pairs rand set_iter
    module_ids miner_answers miner_prompt settings netuid db
  = (Py.Ok NoValidAnswer, db).
Proof.
  intros Hnone.
  unfold validate_step, PyMore.bindM, PyMore.lift, PyMore.ret. simpl.
  now rewrite (overall_hashes_of_absent _ Hnone).
Qed.

(** Scenario B: five workers, all of them timed out. *)
Lemma no_usable_reply_no_consensus_witness :
  validate_step Ex.parse_int Ex.block_range Ex.pool_events Ex.incompleted
    Ex.first_pick input_order [1; 2; 3; 4; 5] [None; None; None; None; None]
    Ex.prompt Ex.settings 7 []
  = (Py.Ok NoValidAnswer, []).
Proof.
  apply (no_usable_reply_no_consensus Ex.parse_int Ex.block_range Ex.pool_events
           Ex.incompleted Ex.first_pick input_order [1; 2; 3; 4; 5]
           [None; None; None; None; None] Ex.prompt Ex.settings 7 []).
  repeat constructor.
Defined.

Lemma save_pool_data_no_vote
    (fetch_incompleted_token_pairs : world -> string -> string -> list (string * string * string))
    (miner_prompt : MinerPrompt) (answer : MinerAnswer) (db : world) :
  fst (save_pool_data fetch_incompleted_token_pairs miner_prompt answer db)
  = Py.Ok tt /\
  filter is_vote
    (snd (save_pool_data fetch_incompleted_token_pairs miner_prompt answer db))
  = filter is_vote db.
Proof.
  unfold save_pool_data.
  destruct (fetch_incompleted_token_pairs _ _ _); simpl; split; try reflexivity;
    rewrite ?filter_app; simpl; now rewrite ?app_nil_r.
Qed.

(** As the code stands, a validation step never reaches [set_weights]:
    the [zip] object of the results has been consumed by the selection of
    the trusted answers when [score_miners] receives it, and
    [score_miners] raises in any case.  No step casts a vote. *)
Lemma validate_step_never_votes
    (parse_int : string -> option Z)
    (get_block_number_range : string -> string -> Z * Z)
    (get_pool_events_by_token_pairs : string -> string -> Z -> Z -> Z -> list BlockData)
    (fetch_incompleted_token_pairs : world -> string -> string -> list (string * string * string))
    (rand : nat -> nat) (set_iter : list string -> list string)
    (module_ids : list Z) (miner_answers : list (option MinerAnswer))
    (miner_prompt : MinerPrompt) (settings : ValidatorSettings) (netuid : Z)
    (db : world) :
  let run :=
    validate_step parse_int get_block_number_range
      get_pool_events_by_token_pairs fetch_incompleted_token_pairs rand
      set_iter module_ids miner_answers miner_prompt settings netuid db in
  fst run <> Py.Ok WeightsSet /\
  fst run <> Py.Ok NoScores /\
  filter is_vote (snd run) = filter is_vote db.
Proof.
  unfold validate_step, PyMore.bindM, PyMore.lift, PyMore.ret. simpl.
  destruct (overall_hashes_of miner_answers) as [[|h hs]|e]; simpl;
    try (repeat split; discriminate || reflexivity).
  destruct (most_common set_iter (h :: hs)) as [mh|e]; simpl;
    try (repeat split; discriminate || reflexivity).
  destruct (trust_of (combine module_ids miner_answers) mh) as [trust|e]; simpl;
    try (repeat split; discriminate || reflexivity).
  destruct (index trust 0) as [[uid a]|e]; simpl;
    try (repeat split; discriminate || reflexivity).
  destruct (check_miner_answer _ _ _ _ _ _) as [[|]|e]; simpl;
    try (repeat split; discriminate || reflexivity).
  pose proof (save_pool_data_no_vote fetch_incompleted_token_pairs
                miner_prompt a db) as [Hs Hv].
  destruct (save_pool_data fetch_incompleted_token_pairs miner_prompt a db)
    as [r db']. simpl in Hs, Hv. subst r.
  simpl. repeat split; discriminate || exact Hv.
Qed.

(** ** Scenarios of the specification *)

(** Scenario A: four replies with hash [H1] and one with [H2]. *)
Example scenario_A :
  most_common input_order ["H1"; "H1"; "H2"; "H1"; "H1"]%string
  = Py.Ok "H1"%string /\
  count_occ string_dec ["H1"; "H1"; "H2"; "H1"; "H1"]%string "H1"%string = 4%nat.
Proof. split; reflexivity. Qed.

(** Scenario D: process times of 100 ms and 300 ms give latency scores
    equal to 1 and to 1/2. *)
Example scenario_D :
  exists s1 s2,
    latency_normalization [(1, Py.Float (1 # 10)); (2, Py.Float (3 # 10))]
    = Py.Ok [(1, Py.Float s1); (2, Py.Float s2)] /\
    (s1 == 1)%Q /\ (s2 == 1 # 2)%Q.
Proof.
  eexists _, _. split; [vm_compute; reflexivity|]. split; reflexivity.
Qed.

(** Scenario E: with [max_allowed_weights = 2] the worker 3 is dropped
    and the weights are computed over the workers 1 and 2 only. *)
Example scenario_E :
  set_weights (mkValidatorSettings 2)
    [(1, Py.Float (9 # 10)); (2, Py.Float (3 # 10)); (3, Py.Float (5 # 100))]
    7 []
  = (Py.Ok tt, [Vote [1; 2] [750; 250] 7]).
Proof. reflexivity. Qed.

(** Outside of the documented range of the scores (from 0 to 1) a weight
    can be negative. *)
Example negative_score_negative_weight :
  set_weights Ex.settings [(1, Py.Float (-1)); (2, Py.Float 3)] 7 []
  = (Py.Ok tt, [Vote [2; 1] [1500; -500] 7]).
Proof. reflexivity. Qed.

(** Scores that sum to zero: nothing is submitted, the call raises. *)
Example all_zero_scores_raise :
  set_weights Ex.settings [(1, Py.Float 0); (2, Py.Float 0)] 7 []
  = (Py.Err Py.ZeroDivisionError, []).
Proof. reflexivity. Qed.


(** The spot check on concrete answers: a record found by the oracle is
    accepted, a record outside of the block range is rejected, and an
    empty ["data"] list makes [random.choice] raise. *)
Example check_accepts :
  check_miner_answer Ex.parse_int Ex.block_range Ex.pool_events Ex.first_pick
    Ex.prompt Ex.answer = Py.Ok true.
Proof. reflexivity. Qed.

Example check_rejects_out_of_range :
  check_miner_answer Ex.parse_int Ex.block_range Ex.pool_events Ex.first_pick
    Ex.prompt Ex.stray_answer = Py.Ok false.
Proof. reflexivity. Qed.

Example check_empty_payload_raises :
  check_miner_answer Ex.parse_int Ex.block_range Ex.pool_events Ex.first_pick
    Ex.prompt Ex.empty_answer = Py.Err Py.IndexError.
Proof. reflexivity. Qed.

(** A step whose consensus answer passes the spot check: the pool data is
    saved and the token pair marked complete, then [score_miners] is
    given the consumed [zip] object and raises [ValueError]; no vote is
    cast. *)
Example accepted_round_raises :
  validate_step Ex.parse_int Ex.block_range Ex.pool_events Ex.incompleted
    Ex.first_pick input_order [1; 2] [Some Ex.answer; Some Ex.answer] Ex.prompt
    Ex.settings 7 []
  = (Py.Err Py.ValueError,
     [CreatePoolDataTable "0xA" "0xB" "3000";
      AddPoolData "0xA" "0xB" "3000" Ex.answer;
      MarkTokenPairAsComplete "2021-05-04 00:00:00" "2021-05-05 00:00:00"
        "0xA" "0xB" "3000";
      MarkTimeRangeAsComplete "2021-05-04 00:00:00" "2021-05-05 00:00:00"]).
Proof. reflexivity. Qed.

(** The sort is stable: workers with equal scores stay in the order of
    the dictionary. *)
Example sorted_reverse_stable :
  PyMore.sorted_reverse snd
    [(1, Py.Float (5 # 10)); (2, Py.Float (9 # 10));
     (3, Py.Float (5 # 10)); (4, Py.Float (9 # 10))]
  = [(2, Py.Float (9 # 10)); (4, Py.Float (9 # 10));
     (1, Py.Float (5 # 10)); (3, Py.Float (5 # 10))].
Proof. reflexivity. Qed.

(* ================================================================== *)
(** * Further properties of the weights *)
(* ================================================================== *)

Lemma sorted_app_order {A : Type} (R : A -> A -> Prop) (l1 l2 : list A) :
  StronglySorted R (l1 ++ l2) ->
  forall x y, In x l1 -> In y l2 -> R x y.
Proof.
  induction l1 as [|a l1 IH]; simpl; intros Hs x y Hx Hy; [contradiction|].
  apply StronglySorted_inv in Hs. destruct Hs as [Hs Ha].
  destruct Hx as [<-|Hx].
  - eapply Forall_forall in Ha; [exact Ha|]. apply in_or_app. now right.
  - now apply IH.
Qed.

Lemma retained_sorted (d : Py.dict Py.num) (m : Z) :
  StronglySorted score_ge (retained d m).
Proof.
  unfold retained.
  destruct (slice_to_firstn (PyMore.sorted_reverse snd d) m) as [n ->].
  apply firstn_sorted, sorted_reverse_sorted.
Qed.

Lemma sorted_reverse_length {A : Type} (key : A -> Py.num) (l : list A) :
  length (PyMore.sorted_reverse key l) = length l.
Proof. apply Permutation_length, sorted_reverse_perm. Qed.

(** X1.  [cut_to_max_allowed_weights] keeps the best scores.  For a
    dictionary [d] and any bound [m], the result is in descending order
    of score, its items are items of [d] with distinct keys, every item
    of [d] that was dropped has a score no greater than the score of
    every item kept, and the number of items kept is [min m (len d)] for
    [m >= 0] and [max 0 (len d + m)] for a negative [m] (which drops the
    [-m] lowest scores instead of raising). *)
Theorem cut_keeps_best_scores (score_dict : Py.dict Py.num) (m : Z) :
  well_formed score_dict ->
  let cut := cut_to_max_allowed_weights score_dict m in
  StronglySorted score_ge cut /\
  well_formed cut /\
  incl cut score_dict /\
  (forall kept dropped,
      In kept cut -> In dropped score_dict -> ~ In dropped cut ->
      score_ge kept dropped) /\
  (0 <= m ->
   Z.of_nat (length cut) = Z.min m (Z.of_nat (length score_dict))) /\
  (m < 0 ->
   Z.of_nat (length cut) = Z.max 0 (Z.of_nat (length score_dict) + m)).
Proof.
  intros Hd cut. unfold cut. rewrite (cut_is_retained _ _ Hd).
  split; [apply retained_sorted|].
  split; [now apply retained_well_formed|].
  split; [apply retained_incl|].
  split.
  - intros kept dropped Hk Hin Hout. unfold retained in *.
    destruct (slice_to_firstn (PyMore.sorted_reverse snd score_dict) m) as [n E].
    rewrite E in *.
    pose proof (sorted_reverse_sorted score_dict) as Hs.
    rewrite <- (firstn_skipn n (PyMore.sorted_reverse snd score_dict)) in Hs.
    apply (sorted_app_order _ _ _ Hs); [exact Hk|].
    assert (Hd' : In dropped (PyMore.sorted_reverse snd score_dict)).
    { eapply Permutation_in;
        [apply Permutation_sym, sorted_reverse_perm|exact Hin]. }
    rewrite <- (firstn_skipn n (PyMore.sorted_reverse snd score_dict)) in Hd'.
    apply in_app_or in Hd'. destruct Hd' as [Hd'|Hd']; [contradiction|exact Hd'].
  - unfold retained, Py.slice_to. split; intros Hm.
    + destruct (Z.leb_spec 0 m); [|lia].
      rewrite length_firstn, sorted_reverse_length. lia.
    + destruct (Z.leb_spec 0 m); [lia|].
      rewrite length_firstn, sorted_reverse_length. lia.
Qed.

Lemma cut_keeps_best_scores_witness :
  let cut :=
    cut_to_max_allowed_weights
      [(1, Py.Float (5 # 10)); (2, Py.Float (9 # 10)); (3, Py.Float (1 # 10))] 2 in
  StronglySorted score_ge cut /\
  well_formed cut /\
  incl cut [(1, Py.Float (5 # 10)); (2, Py.Float (9 # 10)); (3, Py.Float (1 # 10))] /\
  (forall kept dropped,
      In kept cut ->
      In dropped [(1, Py.Float (5 # 10)); (2, Py.Float (9 # 10));
                  (3, Py.Float (1 # 10))] ->
      ~ In dropped cut -> score_ge kept dropped) /\
  (0 <= 2 -> Z.of_nat (length cut) = Z.min 2 (Z.of_nat 3)) /\
  (2 < 0 -> Z.of_nat (length cut) = Z.max 0 (Z.of_nat 3 + 2)).
Proof.
  apply (cut_keeps_best_scores
           [(1, Py.Float (5 # 10)); (2, Py.Float (9 # 10));
            (3, Py.Float (1 # 10))] 2).
  unfold well_formed. simpl.
  repeat constructor; simpl; intuition discriminate.
Defined.











(** X4.  An empty selection is still submitted.  When
    [max_allowed_weights] is 0 or the score dictionary is empty,
    [set_weights] does not raise and does not skip the call: it votes
    with an empty list of uids and an empty list of weights. *)
Theorem empty_selection_is_voted (settings : ValidatorSettings)
    (score_dict : Py.dict Py.num) (netuid : Z) (client : world) :
  max_allowed_weights settings = 0 \/ score_dict = [] ->
  set_weights settings score_dict netuid client
  = (Py.Ok tt, client ++ [Vote [] [] netuid]).
Proof.
  intros [Hm|Hd]; unfold set_weights, cut_to_max_allowed_weights.
  - rewrite Hm. reflexivity.
  - rewrite Hd. unfold Py.slice_to. simpl.
    destruct (0 <=? max_allowed_weights settings); rewrite firstn_nil; reflexivity.
Qed.

Lemma empty_selection_is_voted_witness :
  set_weights (mkValidatorSettings 0) [(1, Py.Float (9 # 10))] 7 []
  = (Py.Ok tt, [] ++ [Vote [] [] 7]).
Proof.
  apply (empty_selection_is_voted (mkValidatorSettings 0)
           [(1, Py.Float (9 # 10))] 7 []).
  left. reflexivity.
Defined.

(* ================================================================== *)
(** * Further properties of the latency normalization *)
(* ================================================================== *)

Lemma lt_true_of (a b : Py.num) : Py.lt a b = true -> (Py.to_Q a < Py.to_Q b)%Q.
Proof. unfold Py.lt. apply Qltb_true. Qed.

Lemma lt_false_ge (a b : Py.num) : Py.lt a b = false -> (Py.to_Q b <= Py.to_Q a)%Q.
Proof. unfold Py.lt. apply Qltb_false. Qed.

Lemma max_fold_upper (r : list Py.num) (x : Py.num) :
  let m := fold_left (fun best y => if Py.lt best y then y else best) r x in
  (Py.to_Q x <= Py.to_Q m)%Q /\ forall y, In y r -> (Py.to_Q y <= Py.to_Q m)%Q.
Proof.
  revert x. induction r as [|y r IH]; intros x; simpl.
  - split; [apply Qle_refl|intros y []].
  - destruct (Py.lt x y) eqn:E.
    + apply lt_true_of in E. destruct (IH y) as [H1 H2]. split.
      * eapply Qle_trans; [apply Qlt_le_weak, E|exact H1].
      * intros z [<-|Hz]; auto.
    + apply lt_false_ge in E. destruct (IH x) as [H1 H2]. split; [exact H1|].
      intros z [<-|Hz]; auto. eapply Qle_trans; eauto.
Qed.

Lemma min_fold_lower (r : list Py.num) (x : Py.num) :
  let m := fold_left (fun best y => if Py.lt y best then y else best) r x in
  (Py.to_Q m <= Py.to_Q x)%Q /\ forall y, In y r -> (Py.to_Q m <= Py.to_Q y)%Q.
Proof.
  revert x. induction r as [|y r IH]; intros x; simpl.
  - split; [apply Qle_refl|intros y []].
  - destruct (Py.lt y x) eqn:E.
    + apply lt_true_of in E. destruct (IH y) as [H1 H2]. split.
      * eapply Qle_trans; [exact H1|apply Qlt_le_weak, E].
      * intros z [<-|Hz]; auto.
    + apply lt_false_ge in E. destruct (IH x) as [H1 H2]. split; [exact H1|].
      intros z [<-|Hz]; auto. eapply Qle_trans; eauto.
Qed.

Lemma max_upper (xs : list Py.num) (m : Py.num) :
  Py.max xs = Py.Ok m -> forall y, In y xs -> (Py.to_Q y <= Py.to_Q m)%Q.
Proof.
  destruct xs as [|x r]; simpl; [discriminate|].
  intros H. injection H as <-.
  destruct (max_fold_upper r x) as [H1 H2].
  intros y [<-|Hy]; [exact H1|now apply H2].
Qed.

Lemma min_lower (xs : list Py.num) (m : Py.num) :
  Py.min xs = Py.Ok m -> forall y, In y xs -> (Py.to_Q m <= Py.to_Q y)%Q.
Proof.
  destruct xs as [|x r]; simpl; [discriminate|].
  intros H. injection H as <-.
  destruct (min_fold_lower r x) as [H1 H2].
  intros y [<-|Hy]; [exact H1|now apply H2].
Qed.

Lemma normalize_loop_from (mn mx : Py.num) (items acc : Py.dict Py.num) :
  Py.is_zero (Py.sub mx mn) = false ->
  NoDup (Py.keys acc ++ Py.keys items) ->
  normalize_loop mn mx items acc
  = Py.Ok (acc ++
           map (fun kv =>
                  (fst kv,
                   Py.sub (Py.Int 1)
                     (Py.Float
                        (Py.to_Q (Py.mul (Py.Float (1 # 2)) (Py.sub (snd kv) mn))
                         / Py.to_Q (Py.sub mx mn)))))
               items).
Proof.
  intros Hz. revert acc.
  induction items as [|[uid t] items IH]; simpl; intros acc H.
  - now rewrite app_nil_r.
  - unfold Py.truediv. rewrite Hz. simpl.
    apply nodup_app_cons_fresh in H. destruct H as [Hk H].
    rewrite (set_fresh _ _ _ Hk). rewrite IH.
    + now rewrite <- app_assoc.
    + now rewrite keys_app.
Qed.

(** X5.  Latency scores when the process times differ.  For a dictionary
    of process times (distinct keys) in which two times differ, the
    normalization returns a dictionary with the same keys in the same
    order; the score of a worker whose time is [t] is
    [1 - (1/2) * (t - t_min) / (t_max - t_min)], where [t_min] and
    [t_max] are the least and the greatest of the times; it lies between
    1/2 and 1, is 1 for a fastest worker and 1/2 for a slowest one. *)
Theorem latency_scores_between_half_and_one (process_time_score : Py.dict Py.num) :
  well_formed process_time_score ->
  (exists a b, In a (Py.values process_time_score) /\
               In b (Py.values process_time_score) /\
               (Py.to_Q a < Py.to_Q b)%Q) ->
  exists out t_min t_max,
    latency_normalization process_time_score = Py.Ok out /\
    Py.keys out = Py.keys process_time_score /\
    In t_min (Py.values process_time_score) /\
    In t_max (Py.values process_time_score) /\
    (forall t, In t (Py.values process_time_score) ->
               (Py.to_Q t_min <= Py.to_Q t /\ Py.to_Q t <= Py.to_Q t_max)%Q) /\
    (forall uid t, In (uid, t) process_time_score ->
       exists v,
         In (uid, v) out /\
         (Py.to_Q v == 1 - (1 # 2) * (Py.to_Q t - Py.to_Q t_min)
                          / (Py.to_Q t_max - Py.to_Q t_min))%Q /\
         ((1 # 2) <= Py.to_Q v /\ Py.to_Q v <= 1)%Q /\
         ((Py.to_Q t == Py.to_Q t_min)%Q -> (Py.to_Q v == 1)%Q) /\
         ((Py.to_Q t == Py.to_Q t_max)%Q -> (Py.to_Q v == 1 # 2)%Q)).
Proof.
  intros Hd (a & b & Ha & Hb & Hab).
  unfold latency_normalization.
  destruct (Py.max (Py.values process_time_score)) as [mx|e] eqn:Emax.
  2:{ destruct process_time_score; [contradiction|discriminate]. }
  destruct (Py.min (Py.values process_time_score)) as [mn|e] eqn:Emin.
  2:{ destruct process_time_score; [contradiction|discriminate]. }
  pose proof (max_upper _ _ Emax) as Hup.
  pose proof (min_lower _ _ Emin) as Hlo.
  assert (HD : (0 < Py.to_Q mx - Py.to_Q mn)%Q).
  { pose proof (Hup b Hb). pose proof (Hlo a Ha). lra. }
  assert (Hz : Py.is_zero (Py.sub mx mn) = false).
  { apply is_zero_false_intro. rewrite to_Q_sub. intros E. rewrite E in HD.
    now apply Qlt_irrefl in HD. }
  simpl. rewrite (normalize_loop_from mn mx process_time_score [] Hz) by exact Hd.
  simpl app. eexists _, mn, mx. split; [reflexivity|].
  split. { unfold Py.keys. rewrite map_map. reflexivity. }
  split; [now apply min_in|]. split; [now apply max_in|].
  split. { intros t Ht. split; [now apply Hlo|now apply Hup]. }
  intros uid t Hin.
  assert (Ht : In t (Py.values process_time_score)).
  { unfold Py.values. apply in_map_iff. exists (uid, t). auto. }
  pose proof (Hlo t Ht) as Htlo. pose proof (Hup t Ht) as Htup.
  eexists. split.
  { apply in_map_iff. exists (uid, t). split; [reflexivity|exact Hin]. }
  cbn [snd fst].
  set (q := ((1 # 2) * (Py.to_Q t - Py.to_Q mn)
             / (Py.to_Q mx - Py.to_Q mn))%Q).
  assert (Ev : (Py.to_Q
                  (Py.sub (Py.Int 1)
                     (Py.Float
                        (Py.to_Q (Py.mul (Py.Float (1 # 2)) (Py.sub t mn))
                         / Py.to_Q (Py.sub mx mn))))
                == 1 - q)%Q).
  { rewrite to_Q_sub. cbn [Py.to_Q]. rewrite to_Q_mul, !to_Q_sub.
    cbn [Py.to_Q]. unfold q. reflexivity. }
  assert (Hq0 : (0 <= q)%Q).
  { unfold q. apply Qle_shift_div_l; [exact HD|]. lra. }
  assert (Hq1 : (q <= 1 # 2)%Q).
  { unfold q. apply Qle_shift_div_r; [exact HD|]. lra. }
  split; [exact Ev|]. split; [rewrite Ev; split; lra|]. split.
  - intros E. rewrite Ev. unfold q. rewrite E.
    setoid_replace ((1 # 2) * (Py.to_Q mn - Py.to_Q mn))%Q with 0%Q by ring.
    unfold Qdiv. ring.
  - intros E. rewrite Ev. unfold q. rewrite E.
    unfold Qdiv. rewrite <- Qmult_assoc.
    rewrite Qmult_inv_r
      by (intros E0; rewrite E0 in HD; now apply Qlt_irrefl in HD).
    ring.
Qed.

Lemma latency_scores_between_half_and_one_witness :
  exists out t_min t_max,
    latency_normalization [(1, Py.Float (1 # 10)); (2, Py.Float (3 # 10))]
    = Py.Ok out /\
    Py.keys out = Py.keys [(1, Py.Float (1 # 10)); (2, Py.Float (3 # 10))] /\
    In t_min (Py.values [(1, Py.Float (1 # 10)); (2, Py.Float (3 # 10))]) /\
    In t_max (Py.values [(1, Py.Float (1 # 10)); (2, Py.Float (3 # 10))]) /\
    (forall t, In t (Py.values [(1, Py.Float (1 # 10)); (2, Py.Float (3 # 10))]) ->
               (Py.to_Q t_min <= Py.to_Q t /\ Py.to_Q t <= Py.to_Q t_max)%Q) /\
    (forall uid t,
       In (uid, t) [(1, Py.Float (1 # 10)); (2, Py.Float (3 # 10))] ->
       exists v,
         In (uid, v) out /\
         (Py.to_Q v == 1 - (1 # 2) * (Py.to_Q t - Py.to_Q t_min)
                          / (Py.to_Q t_max - Py.to_Q t_min))%Q /\
         ((1 # 2) <= Py.to_Q v /\ Py.to_Q v <= 1)%Q /\
         ((Py.to_Q t == Py.to_Q t_min)%Q -> (Py.to_Q v == 1)%Q) /\
         ((Py.to_Q t == Py.to_Q t_max)%Q -> (Py.to_Q v == 1 # 2)%Q)).
Proof.
  apply (latency_scores_between_half_and_one
           [(1, Py.Float (1 # 10)); (2, Py.Float (3 # 10))]).
  - unfold well_formed. simpl.
    repeat constructor; simpl; intuition discriminate.
  - exists (Py.Float (1 # 10)), (Py.Float (3 # 10)). simpl.
    split; [now left|]. split; [right; now left|]. reflexivity.
Defined.

(* ================================================================== *)
(** * Further properties of the consensus and of the spot check *)
(* ================================================================== *)

Lemma count_occ_two (l : list string) (x y : string) :
  x <> y ->
  (count_occ string_dec l x + count_occ string_dec l y <= length l)%nat.
Proof.
  intros Hne. induction l as [|h l IH]; simpl; [lia|].
  destruct (string_dec h x) as [Ex|Ex], (string_dec h y) as [Ey|Ey]; try lia.
  congruence.
Qed.

(** X6.  A strict majority always wins.  Whatever the iteration order of
    the set of hashes, a hash carried by more than half of the replies
    that have a payload is the one selected. *)
Theorem strict_majority_wins (set_iter : list string -> list string)
    (hashes : list string) (w : string) :
  set_order_ok set_iter ->
  (length hashes < 2 * count_occ string_dec hashes w)%nat ->
  most_common set_iter hashes = Py.Ok w.
Proof.
  intros Hok Hmaj.
  assert (Hw : In w hashes).
  { apply (count_occ_In string_dec). lia. }
  assert (Hne : hashes <> []) by (intros ->; contradiction).
  pose proof (set_order_nonempty _ _ Hok Hne) as Hne'.
  destruct (max_by_spec (count_occ string_dec hashes) (set_iter hashes) Hne')
    as (w' & pre & post & E & L & P1 & P2).
  unfold most_common. rewrite E. f_equal.
  destruct (string_dec w' w) as [->|Hdiff]; [reflexivity|].
  exfalso.
  apply max_by_maximal in E. destruct E as [_ Hmax].
  destruct (Hok hashes) as [_ Hin].
  specialize (Hmax w (proj2 (Hin w) Hw)).
  pose proof (count_occ_two hashes w' w Hdiff). lia.
Qed.

Lemma strict_majority_wins_witness :
  most_common reversed_order ["H2"; "H1"; "H1"]%string = Py.Ok "H1"%string.
Proof.
  apply (strict_majority_wins reversed_order ["H2"; "H1"; "H1"]%string "H1"%string).
  - exact reversed_order_ok.
  - simpl. lia.
Defined.

(** X7.  The answer taken as ground truth is the one of the first
    worker, in polling order, that carries the winning hash: the head of
    [trust_miner_results] comes from an item before which no reply
    carries that hash. *)
Theorem trusted_answer_is_first_supporter
    (items : list (Z * option MinerAnswer)) (mh : string) (key : Z)
    (answer : MinerAnswer) (rest : list (Z * MinerAnswer)) :
  trust_of items mh = Py.Ok ((key, answer) :: rest) ->
  exists before after,
    items = before ++ (key, Some answer) :: after /\
    overall_data_hash answer = Some mh /\
    (forall k a, In (k, Some a) before -> overall_data_hash a <> Some mh) /\
    trust_of after mh = Py.Ok rest.
Proof.
  induction items as [|[k [a|]] items IH]; simpl; intros H.
  - discriminate.
  - destruct (overall_data_hash a) as [h|] eqn:Eh; [|discriminate].
    destruct (trust_of items mh) as [tl|e] eqn:Et; simpl in H; [|discriminate].
    destruct (String.eqb_spec h mh) as [->|Hne].
    + injection H as -> -> ->.
      exists [], items. split; [reflexivity|]. split; [exact Eh|].
      split; [intros k' a' []|exact Et].
    + injection H as ->.
      destruct (IH eq_refl) as (before & after & E & Hh & Hb & Ha).
      exists ((k, Some a) :: before), after. subst items.
      repeat split; auto.
      intros k' a' [E'|Hin]; [|eauto].
      injection E' as _ <-. rewrite Eh. congruence.
  - destruct (IH H) as (before & after & E & Hh & Hb & Ha).
    exists ((k, None) :: before), after. subst items.
    repeat split; auto.
    intros k' a' [E'|Hin]; [discriminate|eauto].
Qed.

Lemma trusted_answer_is_first_supporter_witness :
  exists before after,
    [(1, None); (2, Some Ex.stray_answer); (3, Some Ex.answer); (4, Some Ex.answer)]
    = before ++ (3, Some Ex.answer) :: after /\
    overall_data_hash Ex.answer = Some "H1"%string /\
    (forall k a, In (k, Some a) before ->
                 overall_data_hash a <> Some "H1"%string) /\
    trust_of after "H1" = Py.Ok [(4, Ex.answer)].
Proof.
  apply (trusted_answer_is_first_supporter
           [(1, None); (2, Some Ex.stray_answer); (3, Some Ex.answer);
            (4, Some Ex.answer)] "H1"%string 3 Ex.answer [(4, Ex.answer)]).
  reflexivity.
Defined.

Lemma option_string_eqb_eq (a b : option string) :
  PyMore.option_eqb String.eqb a b = true <-> a = b.
Proof.
  destruct a as [x|], b as [y|]; simpl; split; try congruence.
  - intros H. apply String.eqb_eq in H. congruence.
  - intros H. injection H as ->. apply String.eqb_refl.
Qed.

Lemma random_choice_in {A : Type} (rand : nat -> nat) (k : nat) (seq : list A)
    (x : A) :
  random_choice rand k seq = Py.Ok x -> In x seq.
Proof.
  unfold random_choice, index. destruct seq as [|a l]; [discriminate|].
  destruct (nth_error (a :: l) (rand k mod length (a :: l))) as [y|] eqn:E;
    [|discriminate].
  intros H. injection H as <-. eapply nth_error_In; eauto.
Qed.

Lemma check_loop_sound
    (get_pool_events_by_token_pairs : string -> string -> Z -> Z -> Z -> list BlockData)
    (rand : nat -> nat) (ta tb : string) (token_fee lo hi : Z)
    (miner_data : list BlockData) (n k : nat) :
  check_loop get_pool_events_by_token_pairs rand ta tb token_fee lo hi
    miner_data n k = Py.Ok true ->
  exists block_data bn event,
    In block_data miner_data /\
    block_number block_data = Some bn /\ lo <= bn <= hi /\
    In event (get_pool_events_by_token_pairs ta tb bn bn token_fee) /\
    transaction_hash event = transaction_hash block_data.
Proof.
  revert k. induction n as [|n IH]; intros k; simpl; [discriminate|].
  destruct (random_choice rand k miner_data) as [bd|e] eqn:Ec; simpl;
    [|discriminate].
  destruct (block_number bd) as [bn|] eqn:Eb; [|discriminate].
  destruct (out_of_range bn lo hi) eqn:Er; [discriminate|].
  destruct (found_in_pools bd _) eqn:Ef; [|apply IH].
  intros _. unfold found_in_pools in Ef. apply existsb_exists in Ef.
  destruct Ef as [ev [Hev Heq]]. apply option_string_eqb_eq in Heq.
  exists bd, bn, ev. split; [eapply random_choice_in; eauto|].
  split; [exact Eb|]. split; [|auto].
  unfold out_of_range in Er. apply orb_false_iff in Er. destruct Er as [E1 E2].
  apply Z.ltb_ge in E1. rewrite Z.gtb_ltb in E2. apply Z.ltb_ge in E2. lia.
Qed.

(** X8.  An accepted answer holds a verified record.  Whenever
    [check_miner_answer] returns [True], the answer has a ["data"] list
    and that list holds a record whose block number lies in the block
    range of the prompt and whose transaction hash is the transaction
    hash of one of the pool events fetched for that very block (a record
    and an event that both lack a transaction hash count as equal). *)
Theorem accepted_answer_has_verified_record
    (parse_int : string -> option Z)
    (get_block_number_range : string -> string -> Z * Z)
    (get_pool_events_by_token_pairs : string -> string -> Z -> Z -> Z -> list BlockData)
    (rand : nat -> nat) (miner_prompt : MinerPrompt) (answer : MinerAnswer) :
  check_miner_answer parse_int get_block_number_range
    get_pool_events_by_token_pairs rand miner_prompt answer = Py.Ok true ->
  exists token_fee miner_data block_data bn event,
    parse_int (fee miner_prompt) = Some token_fee /\
    data answer = Some miner_data /\
    In block_data miner_data /\
    block_number block_data = Some bn /\
    fst (get_block_number_range (start_datetime miner_prompt)
           (end_datetime miner_prompt)) <= bn /\
    bn <= snd (get_block_number_range (start_datetime miner_prompt)
                 (end_datetime miner_prompt)) /\
    In event
      (get_pool_events_by_token_pairs (token_a miner_prompt)
         (token_b miner_prompt) bn bn token_fee) /\
    transaction_hash event = transaction_hash block_data.
Proof.
  unfold check_miner_answer.
  destruct (parse_int (fee miner_prompt)) as [token_fee|]; cbn [Py.bind];
    [|discriminate].
  destruct (get_block_number_range _ _) as [lo hi].
  destruct (data answer) as [miner_data|]; [|discriminate].
  intros H. apply check_loop_sound in H.
  destruct H as (bd & bn & ev & H1 & H2 & H3 & H4 & H5).
  exists token_fee, miner_data, bd, bn, ev. simpl. intuition.
Qed.

Lemma accepted_answer_has_verified_record_witness :
  exists token_fee miner_data block_data bn event,
    Ex.parse_int (fee Ex.prompt) = Some token_fee /\
    data Ex.answer = Some miner_data /\
    In block_data miner_data /\
    block_number block_data = Some bn /\
    fst (Ex.block_range (start_datetime Ex.prompt) (end_datetime Ex.prompt)) <= bn /\
    bn <= snd (Ex.block_range (start_datetime Ex.prompt) (end_datetime Ex.prompt)) /\
    In event
      (Ex.pool_events (token_a Ex.prompt) (token_b Ex.prompt) bn bn token_fee) /\
    transaction_hash event = transaction_hash block_data.
Proof.
  apply (accepted_answer_has_verified_record Ex.parse_int Ex.block_range
           Ex.pool_events Ex.first_pick Ex.prompt Ex.answer).
  reflexivity.
Defined.

(** The verdict of the code on a sampled record, from what the record
    and the pool events are. *)
Lemma verdict_outside
    (get_pool_events_by_token_pairs : string -> string -> Z -> Z -> Z -> list BlockData)
    (ta tb : string) (token_fee lo hi : Z) (block_data : BlockData) :
  sample_outside lo hi block_data ->
  verdict_of get_pool_events_by_token_pairs ta tb token_fee lo hi block_data
  = Outside.
Proof.
  unfold sample_outside, verdict_of, out_of_range.
  destruct (block_number block_data) as [bn|]; [|reflexivity].
  intros [H|H].
  - apply Z.ltb_lt in H. now rewrite H.
  - assert (E : (bn >? hi) = true) by (rewrite Z.gtb_ltb; now apply Z.ltb_lt).
    rewrite E, orb_true_r. reflexivity.
Qed.

Lemma in_range_not_out (lo hi bn : Z) :
  lo <= bn <= hi -> out_of_range bn lo hi = false.
Proof.
  intros H. unfold out_of_range. apply orb_false_iff. split.
  - apply Z.ltb_ge. lia.
  - rewrite Z.gtb_ltb. apply Z.ltb_ge. lia.
Qed.

Lemma verdict_found
    (get_pool_events_by_token_pairs : string -> string -> Z -> Z -> Z -> list BlockData)
    (ta tb : string) (token_fee lo hi : Z) (block_data : BlockData) :
  sample_found (fun bn => get_pool_events_by_token_pairs ta tb bn bn token_fee)
    lo hi block_data ->
  verdict_of get_pool_events_by_token_pairs ta tb token_fee lo hi block_data
  = Match.
Proof.
  intros (bn & event & Hbn & Hr & Hin & Heq). unfold verdict_of.
  rewrite Hbn, (in_range_not_out _ _ _ Hr).
  assert (E : found_in_pools block_data
                (get_pool_events_by_token_pairs ta tb bn bn token_fee) = true).
  { unfold found_in_pools. apply existsb_exists. exists event.
    split; [exact Hin|]. now apply option_string_eqb_eq. }
  now rewrite E.
Qed.

Lemma verdict_missed
    (get_pool_events_by_token_pairs : string -> string -> Z -> Z -> Z -> list BlockData)
    (ta tb : string) (token_fee lo hi : Z) (block_data : BlockData) :
  sample_missed (fun bn => get_pool_events_by_token_pairs ta tb bn bn token_fee)
    lo hi block_data ->
  verdict_of get_pool_events_by_token_pairs ta tb token_fee lo hi block_data
  = NoMatch.
Proof.
  intros (bn & Hbn & Hr & Hno). unfold verdict_of.
  rewrite Hbn, (in_range_not_out _ _ _ Hr).
  destruct (found_in_pools block_data
              (get_pool_events_by_token_pairs ta tb bn bn token_fee)) eqn:E;
    [|reflexivity].
  exfalso. unfold found_in_pools in E. apply existsb_exists in E.
  destruct E as (event & Hin & Heq). apply option_string_eqb_eq in Heq.
  exact (Hno event Hin Heq).
Qed.

Lemma verdict_at_drawn
    (get_pool_events_by_token_pairs : string -> string -> Z -> Z -> Z -> list BlockData)
    (rand : nat -> nat) (ta tb : string) (token_fee lo hi : Z)
    (miner_data : list BlockData) (k : nat) (block_data : BlockData) :
  drawn rand miner_data k block_data ->
  verdict_at get_pool_events_by_token_pairs rand ta tb token_fee lo hi
    miner_data k
  = verdict_of get_pool_events_by_token_pairs ta tb token_fee lo hi block_data.
Proof.
  unfold drawn, verdict_at. now intros ->.
Qed.

(** X19.  The spot check on a consensus answer from which a record can
    be drawn, in the terms of the specification.  (1) Only the first ten
    draws matter: two random sources that agree on them give the same
    outcome.  (2) If the draws before the [k]-th (k < 10) were all
    missed and the [k]-th record has no block number or a block number
    outside of the block range, the answer is rejected, whatever later
    draws would give.  (3) If instead the [k]-th record is within the
    range and some pool event of its block has its transaction hash, the
    answer is accepted.  (4) If the ten draws are all missed, the answer
    is rejected.  (5) After a rejection [validate_step] returns at once,
    the database and the ledger client being left as they were. *)
Theorem spot_check_first_decisive_draw
    (parse_int : string -> option Z)
    (get_block_number_range : string -> string -> Z * Z)
    (get_pool_events_by_token_pairs : string -> string -> Z -> Z -> Z -> list BlockData)
    (fetch_incompleted_token_pairs : world -> string -> string -> list (string * string * string))
    (rand : nat -> nat) (set_iter : list string -> list string)
    (miner_prompt : MinerPrompt) (answer : MinerAnswer)
    (miner_data : list BlockData) (token_fee lo hi : Z) :
  parse_int (fee miner_prompt) = Some token_fee ->
  get_block_number_range (start_datetime miner_prompt) (end_datetime miner_prompt)
  = (lo, hi) ->
  data answer = Some miner_data ->
  miner_data <> [] ->
  let check r :=
    check_miner_answer parse_int get_block_number_range
      get_pool_events_by_token_pairs r miner_prompt answer in
  let events_at bn :=
    get_pool_events_by_token_pairs (token_a miner_prompt)
      (token_b miner_prompt) bn bn token_fee in
  (forall rand',
      (forall k, (k < 10)%nat -> rand' k = rand k) ->
      check rand' = check rand) /\
  (forall k block_data, (k < 10)%nat ->
      drawn rand miner_data k block_data ->
      (forall j, (j < k)%nat ->
         exists earlier, drawn rand miner_data j earlier /\
                         sample_missed events_at lo hi earlier) ->
      sample_outside lo hi block_data ->
      check rand = Py.Ok false) /\
  (forall k block_data, (k < 10)%nat ->
      drawn rand miner_data k block_data ->
      (forall j, (j < k)%nat ->
         exists earlier, drawn rand miner_data j earlier /\
                         sample_missed events_at lo hi earlier) ->
      sample_found events_at lo hi block_data ->
      check rand = Py.Ok true) /\
  ((forall j, (j < 10)%nat ->
      exists sampled, drawn rand miner_data j sampled /\
                      sample_missed events_at lo hi sampled) ->
   check rand = Py.Ok false) /\
  (check rand = Py.Ok false ->
   forall module_ids miner_answers hashes mh uid rest settings netuid db,
     overall_hashes_of miner_answers = Py.Ok hashes ->
     hashes <> [] ->
     most_common set_iter hashes = Py.Ok mh ->
     trust_of (combine module_ids miner_answers) mh
     = Py.Ok ((uid, answer) :: rest) ->
     validate_step parse_int get_block_number_range
       get_pool_events_by_token_pairs fetch_incompleted_token_pairs rand
       set_iter module_ids miner_answers miner_prompt settings netuid db
     = (Py.Ok AnswersNotValid, db)).
Proof.
  intros Hfee Hrange Hdata Hne check events_at.
  set (v := verdict_at get_pool_events_by_token_pairs rand
              (token_a miner_prompt) (token_b miner_prompt) token_fee lo hi
              miner_data).
  assert (Hcheck : forall r,
             check r = Py.Ok (first_decisive
               (map (verdict_at get_pool_events_by_token_pairs r
                       (token_a miner_prompt) (token_b miner_prompt)
                       token_fee lo hi miner_data)
                    (seq 0 10)))).
  { intros r. unfold check, check_miner_answer.
    rewrite Hfee, Hrange, Hdata. cbn [Py.bind].
    now apply check_loop_decides. }
  assert (Hmiss : forall j,
             (exists sampled, drawn rand miner_data j sampled /\
                              sample_missed events_at lo hi sampled) ->
             v j = NoMatch).
  { intros j (bd & Hd & Hm). unfold v.
    rewrite (verdict_at_drawn _ _ _ _ _ _ _ _ _ _ Hd).
    now apply verdict_missed. }
  split.
  { intros rand' Hagree. rewrite !Hcheck. do 2 f_equal.
    now apply verdicts_agree. }
  split.
  { intros k bd Hk Hd Hpre Hout. rewrite Hcheck. fold v.
    assert (Hv : v k = Outside).
    { unfold v. rewrite (verdict_at_drawn _ _ _ _ _ _ _ _ _ _ Hd).
      now apply verdict_outside. }
    rewrite (first_decisive_at v _ k Hk) by (auto || congruence).
    now rewrite Hv. }
  split.
  { intros k bd Hk Hd Hpre Hfound. rewrite Hcheck. fold v.
    assert (Hv : v k = Match).
    { unfold v. rewrite (verdict_at_drawn _ _ _ _ _ _ _ _ _ _ Hd).
      now apply verdict_found. }
    rewrite (first_decisive_at v _ k Hk) by (auto || congruence).
    now rewrite Hv. }
  split.
  { intros Hall. rewrite Hcheck. fold v. f_equal.
    apply first_decisive_none. intros j Hj. apply Hmiss. now apply Hall. }
  intros Hrej module_ids miner_answers hashes mh uid rest settings netuid db
    Hh Hhne Hmc Ht.
  eapply rejection_abandons_round; eauto.
Qed.

(** The three paths on small answers: the record of block 12345 is found
    by the oracle (accepted at the first draw), a record of block 7 is
    outside of the range 12000..13000 (rejected at the first draw), and
    with an oracle that knows no event the ten draws are missed
    (rejected, and the step ends with the world untouched). *)
Lemma spot_check_first_decisive_draw_witness :
  check_miner_answer Ex.parse_int Ex.block_range Ex.pool_events
    Ex.first_pick Ex.prompt Ex.answer = Py.Ok true /\
  check_miner_answer Ex.parse_int Ex.block_range Ex.pool_events
    Ex.first_pick Ex.prompt Ex.stray_answer = Py.Ok false /\
  check_miner_answer Ex.parse_int Ex.block_range Ex.no_pool_events
    Ex.first_pick Ex.prompt Ex.answer = Py.Ok false /\
  validate_step Ex.parse_int Ex.block_range Ex.no_pool_events Ex.incompleted
    Ex.first_pick input_order [1; 2] [Some Ex.answer; None] Ex.prompt
    Ex.settings 7 []
  = (Py.Ok AnswersNotValid, []).
Proof.
  pose proof (spot_check_first_decisive_draw Ex.parse_int Ex.block_range
                Ex.pool_events Ex.incompleted Ex.first_pick input_order
                Ex.prompt Ex.answer [Ex.record] 3000 12000 13000
                eq_refl eq_refl eq_refl ltac:(discriminate)) as Haccept.
  pose proof (spot_check_first_decisive_draw Ex.parse_int Ex.block_range
                Ex.pool_events Ex.incompleted Ex.first_pick input_order
                Ex.prompt Ex.stray_answer [Ex.stray_record] 3000 12000 13000
                eq_refl eq_refl eq_refl ltac:(discriminate)) as Houtside.
  pose proof (spot_check_first_decisive_draw Ex.parse_int Ex.block_range
                Ex.no_pool_events Ex.incompleted Ex.first_pick input_order
                Ex.prompt Ex.answer [Ex.record] 3000 12000 13000
                eq_refl eq_refl eq_refl ltac:(discriminate)) as Hmisses.
  cbv zeta in Haccept, Houtside, Hmisses.
  destruct Haccept as (_ & _ & Hfound & _).
  destruct Houtside as (_ & Hout & _).
  destruct Hmisses as (_ & _ & _ & Hmiss & Hstep).
  split.
  { apply (Hfound O Ex.record); [lia|reflexivity|intros j Hj; lia|].
    exists 12345, Ex.record. simpl. repeat split; try lia. now left. }
  split.
  { apply (Hout O Ex.stray_record); [lia|reflexivity|intros j Hj; lia|].
    unfold sample_outside. simpl. left. lia. }
  assert (Hrej : check_miner_answer Ex.parse_int Ex.block_range
                   Ex.no_pool_events Ex.first_pick Ex.prompt Ex.answer
                 = Py.Ok false).
  { apply Hmiss. intros j Hj. exists Ex.record. split; [reflexivity|].
    exists 12345. simpl. split; [reflexivity|]. split; [lia|].
    intros event []. }
  split; [exact Hrej|].
  apply (Hstep Hrej [1; 2] [Some Ex.answer; None] ["H1"%string] "H1"%string 1 []).
  - reflexivity.
  - discriminate.
  - reflexivity.
  - reflexivity.
Defined.

(** C6.  The spot check does not reject an empty consensus payload.  A
    trusted answer that has no ["data"] key is rejected
    ([miner_data is None]), but for one whose ["data"] list is empty the
    first [random.choice] raises [IndexError]: no draw is made, the
    outcome is not a rejection, and the exception leaves
    [validate_step] uncaught (the database and the ledger client being
    left as they were). *)
Theorem empty_payload_escapes_spot_check
    (parse_int : string -> option Z)
    (get_block_number_range : string -> string -> Z * Z)
    (get_pool_events_by_token_pairs : string -> string -> Z -> Z -> Z -> list BlockData)
    (fetch_incompleted_token_pairs : world -> string -> string -> list (string * string * string))
    (rand : nat -> nat) (set_iter : list string -> list string)
    (miner_prompt : MinerPrompt) (answer : MinerAnswer) (token_fee : Z) :
  parse_int (fee miner_prompt) = Some token_fee ->
  data answer = Some [] ->
  check_miner_answer parse_int get_block_number_range
    get_pool_events_by_token_pairs rand miner_prompt answer
  = Py.Err Py.IndexError /\
  check_miner_answer parse_int get_block_number_range
    get_pool_events_by_token_pairs rand miner_prompt answer
  <> Py.Ok false /\
  (forall module_ids miner_answers hashes mh uid rest settings netuid db,
     overall_hashes_of miner_answers = Py.Ok hashes ->
     hashes <> [] ->
     most_common set_iter hashes = Py.Ok mh ->
     trust_of (combine module_ids miner_answers) mh
     = Py.Ok ((uid, answer) :: rest) ->
     validate_step parse_int get_block_number_range
       get_pool_events_by_token_pairs fetch_incompleted_token_pairs rand
       set_iter module_ids miner_answers miner_prompt settings netuid db
     = (Py.Err Py.IndexError, db)) /\
  (forall other,
     data other = None ->
     check_miner_answer parse_int get_block_number_range
       get_pool_events_by_token_pairs rand miner_prompt other
     = Py.Ok false).
Proof.
  intros Hfee Hdata.
  assert (Hcheck : check_miner_answer parse_int get_block_number_range
                     get_pool_events_by_token_pairs rand miner_prompt answer
                   = Py.Err Py.IndexError).
  { unfold check_miner_answer. rewrite Hfee. cbn [Py.bind].
    destruct (get_block_number_range _ _) as [lo hi].
    rewrite Hdata. reflexivity. }
  split; [exact Hcheck|]. split; [rewrite Hcheck; discriminate|]. split.
  - intros module_ids miner_answers hashes mh uid rest settings netuid db
      Hh Hne Hmc Ht.
    unfold validate_step, PyMore.bindM, PyMore.lift, PyMore.ret. simpl.
    rewrite Hh. destruct hashes as [|h hs]; [congruence|].
    rewrite Hmc, Ht. simpl. rewrite Hcheck. reflexivity.
  - intros other Hnone. unfold check_miner_answer. rewrite Hfee.
    cbn [Py.bind]. destruct (get_block_number_range _ _) as [lo hi].
    now rewrite Hnone.
Qed.

Lemma empty_payload_escapes_spot_check_witness :
  check_miner_answer Ex.parse_int Ex.block_range Ex.pool_events Ex.first_pick
    Ex.prompt Ex.empty_answer
  = Py.Err Py.IndexError /\
  validate_step Ex.parse_int Ex.block_range Ex.pool_events Ex.incompleted
    Ex.first_pick input_order [1; 2] [Some Ex.empty_answer; None] Ex.prompt
    Ex.settings 7 []
  = (Py.Err Py.IndexError, []).
Proof.
  destruct (empty_payload_escapes_spot_check Ex.parse_int Ex.block_range
              Ex.pool_events Ex.incompleted Ex.first_pick input_order
              Ex.prompt Ex.empty_answer 3000 eq_refl eq_refl)
    as (Hraise & _ & Hstep & _).
  split; [exact Hraise|].
  apply (Hstep [1; 2] [Some Ex.empty_answer; None] ["H0"%string] "H0"%string
           1 []).
  - reflexivity.
  - discriminate.
  - reflexivity.
  - reflexivity.
Defined.

(* ================================================================== *)
(** * Further properties of the validation step *)
(* ================================================================== *)

Lemma overall_hashes_of_missing (miner_answers : list (option MinerAnswer))
    (a : MinerAnswer) :
  In (Some a) miner_answers -> overall_data_hash a = None ->
  overall_hashes_of miner_answers = Py.Err Py.KeyError.
Proof.
  intros Hin Hh. induction miner_answers as [|[b|] l IH]; simpl.
  - contradiction.
  - destruct Hin as [E|Hin].
    + injection E as ->. now rewrite Hh.
    + destruct (overall_data_hash b); [|reflexivity].
      rewrite (IH Hin). reflexivity.
  - destruct Hin as [E|Hin]; [discriminate|]. now apply IH.
Qed.

(** X9.  A reply without ["overall_data_hash"] aborts the step.  If some
    worker's decoded answer lacks that key, [validate_step] raises
    [KeyError] before the consensus is computed, whatever the other
    workers replied; no call is made on the database or on the ledger
    client. *)
Theorem reply_without_hash_raises
    (parse_int : string -> option Z)
    (get_block_number_range : string -> string -> Z * Z)
    (get_pool_events_by_token_pairs : string -> string -> Z -> Z -> Z -> list BlockData)
    (fetch_incompleted_token_pairs : world -> string -> string -> list (string * string * string))
    (rand : nat -> nat) (set_iter : list string -> list string)
    (module_ids : list Z) (miner_answers : list (option MinerAnswer))
    (miner_prompt : MinerPrompt) (settings : ValidatorSettings) (netuid : Z)
    (db : world) (a : MinerAnswer) :
  In (Some a) miner_answers ->
  overall_data_hash a = None ->
  validate_step parse_int get_block_number_range get_pool_events_by_token_pairs
    fetch_incompleted_token_pairs rand set_iter
    module_ids miner_answers miner_prompt settings netuid db
  = (Py.Err Py.KeyError, db).
Proof.
  intros Hin Hh.
  unfold validate_step, PyMore.bindM, PyMore.lift, PyMore.ret. simpl.
  now rewrite (overall_hashes_of_missing _ _ Hin Hh).
Qed.

Lemma reply_without_hash_raises_witness :
  validate_step Ex.parse_int Ex.block_range Ex.pool_events Ex.incompleted
    Ex.first_pick input_order [1; 2]
    [Some Ex.answer; Some (mkMinerAnswer (Some [Ex.record]) None 1)]
    Ex.prompt Ex.settings 7 []
  = (Py.Err Py.KeyError, []).
Proof.
  apply (reply_without_hash_raises Ex.parse_int Ex.block_range Ex.pool_events
           Ex.incompleted Ex.first_pick input_order [1; 2]
           [Some Ex.answer; Some (mkMinerAnswer (Some [Ex.record]) None 1)]
           Ex.prompt Ex.settings 7 []
           (mkMinerAnswer (Some [Ex.record]) None 1)).
  - right. left. reflexivity.
  - reflexivity.
Defined.

(** X10.  A round whose consensus answer passes the spot check.  The
    pool data of the trusted answer is saved and its token pair marked
    complete (and the time range too, when no token pair of the range is
    left), in this order and after the calls already made; then the step
    raises [ValueError], because [score_miners] is given the [zip] object
    that the selection of the trusted answers has consumed.  The ledger
    client is not called. *)
Theorem accepted_round_saves_then_raises
    (parse_int : string -> option Z)
    (get_block_number_range : string -> string -> Z * Z)
    (get_pool_events_by_token_pairs : string -> string -> Z -> Z -> Z -> list BlockData)
    (fetch_incompleted_token_pairs : world -> string -> string -> list (string * string * string))
    (rand : nat -> nat) (set_iter : list string -> list string)
    (module_ids : list Z) (miner_answers : list (option MinerAnswer))
    (miner_prompt : MinerPrompt) (settings : ValidatorSettings) (netuid : Z)
    (db : world) (hashes : list string) (mh : string) (uid : Z)
    (answer : MinerAnswer) (rest : list (Z * MinerAnswer)) :
  overall_hashes_of miner_answers = Py.Ok hashes ->
  hashes <> [] ->
  most_common set_iter hashes = Py.Ok mh ->
  trust_of (combine module_ids miner_answers) mh = Py.Ok ((uid, answer) :: rest) ->
  check_miner_answer parse_int get_block_number_range
    get_pool_events_by_token_pairs rand miner_prompt answer = Py.Ok true ->
  let saved :=
    db ++ [CreatePoolDataTable (token_a miner_prompt) (token_b miner_prompt)
             (fee miner_prompt);
           AddPoolData (token_a miner_prompt) (token_b miner_prompt)
             (fee miner_prompt) answer;
           MarkTokenPairAsComplete (start_datetime miner_prompt)
             (end_datetime miner_prompt) (token_a miner_prompt)
             (token_b miner_prompt) (fee miner_prompt)] in
  validate_step parse_int get_block_number_range get_pool_events_by_token_pairs
    fetch_incompleted_token_pairs rand set_iter
    module_ids miner_answers miner_prompt settings netuid db
  = (Py.Err Py.ValueError,
     match fetch_incompleted_token_pairs saved (start_datetime miner_prompt)
             (end_datetime miner_prompt) with
     | [] => saved ++ [MarkTimeRangeAsComplete (start_datetime miner_prompt)
                         (end_datetime miner_prompt)]
     | _ :: _ => saved
     end).
Proof.
  intros Hh Hne Hmc Ht Hc saved.
  unfold validate_step, PyMore.bindM, PyMore.lift, PyMore.ret. simpl.
  rewrite Hh. destruct hashes as [|h hs]; [congruence|].
  rewrite Hmc, Ht. simpl. rewrite Hc. simpl.
  unfold save_pool_data. rewrite <- !app_assoc. simpl app.
  unfold saved.
  destruct (fetch_incompleted_token_pairs _ _ _); simpl;
    rewrite <- ?app_assoc; reflexivity.
Qed.

Lemma accepted_round_saves_then_raises_witness :
  let saved :=
    [] ++ [CreatePoolDataTable (token_a Ex.prompt) (token_b Ex.prompt)
             (fee Ex.prompt);
           AddPoolData (token_a Ex.prompt) (token_b Ex.prompt)
             (fee Ex.prompt) Ex.answer;
           MarkTokenPairAsComplete (start_datetime Ex.prompt)
             (end_datetime Ex.prompt) (token_a Ex.prompt)
             (token_b Ex.prompt) (fee Ex.prompt)] in
  validate_step Ex.parse_int Ex.block_range Ex.pool_events Ex.incompleted
    Ex.first_pick input_order [1; 2] [Some Ex.answer; Some Ex.answer]
    Ex.prompt Ex.settings 7 []
  = (Py.Err Py.ValueError,
     match Ex.incompleted saved (start_datetime Ex.prompt)
             (end_datetime Ex.prompt) with
     | [] => saved ++ [MarkTimeRangeAsComplete (start_datetime Ex.prompt)
                         (end_datetime Ex.prompt)]
     | _ :: _ => saved
     end).
Proof.
  apply (accepted_round_saves_then_raises Ex.parse_int Ex.block_range
           Ex.pool_events Ex.incompleted Ex.first_pick input_order [1; 2]
           [Some Ex.answer; Some Ex.answer] Ex.prompt Ex.settings 7 []
           ["H1"; "H1"]%string "H1"%string 1 Ex.answer [(2, Ex.answer)]).
  - reflexivity.
  - discriminate.
  - reflexivity.
  - reflexivity.
  - reflexivity.
Defined.

(** X11.  Degenerate consensus answers.  Let the trusted answer be the
    head of the winning group.  If it has no ["data"] key the step ends
    as a rejection; if its ["data"] list is empty, [random.choice]
    raises [IndexError], which the step does not catch; if the fee of
    the prompt is not the text of an integer, [int] raises [ValueError]
    before the answer is looked at.  In the three cases neither the
    database nor the ledger client is called. *)
Theorem degenerate_consensus_answer
    (parse_int : string -> option Z)
    (get_block_number_range : string -> string -> Z * Z)
    (get_pool_events_by_token_pairs : string -> string -> Z -> Z -> Z -> list BlockData)
    (fetch_incompleted_token_pairs : world -> string -> string -> list (string * string * string))
    (rand : nat -> nat) (set_iter : list string -> list string)
    (module_ids : list Z) (miner_answers : list (option MinerAnswer))
    (miner_prompt : MinerPrompt) (settings : ValidatorSettings) (netuid : Z)
    (db : world) (hashes : list string) (mh : string) (uid : Z)
    (answer : MinerAnswer) (rest : list (Z * MinerAnswer)) :
  overall_hashes_of miner_answers = Py.Ok hashes ->
  hashes <> [] ->
  most_common set_iter hashes = Py.Ok mh ->
  trust_of (combine module_ids miner_answers) mh = Py.Ok ((uid, answer) :: rest) ->
  let step :=
    validate_step parse_int get_block_number_range
      get_pool_events_by_token_pairs fetch_incompleted_token_pairs rand
      set_iter module_ids miner_answers miner_prompt settings netuid db in
  (parse_int (fee miner_prompt) = None -> step = (Py.Err Py.ValueError, db)) /\
  (parse_int (fee miner_prompt) <> None -> data answer = None ->
   step = (Py.Ok AnswersNotValid, db)) /\
  (parse_int (fee miner_prompt) <> None -> data answer = Some [] ->
   step = (Py.Err Py.IndexError, db)).
Proof.
  intros Hh Hne Hmc Ht step. unfold step.
  unfold validate_step, PyMore.bindM, PyMore.lift, PyMore.ret. simpl.
  rewrite Hh. destruct hashes as [|h hs]; [congruence|].
  rewrite Hmc, Ht. simpl. unfold check_miner_answer.
  destruct (parse_int (fee miner_prompt)) as [token_fee|]; cbn [Py.bind].
  - destruct (get_block_number_range _ _) as [lo hi].
    split; [discriminate|]. split; intros _ Hdata; rewrite Hdata; reflexivity.
  - split; [reflexivity|]. split; intros Hf; congruence.
Qed.

Lemma degenerate_consensus_answer_witness :
  let step :=
    validate_step Ex.parse_int Ex.block_range Ex.pool_events Ex.incompleted
      Ex.first_pick input_order [1] [Some Ex.empty_answer] Ex.prompt
      Ex.settings 7 [] in
  (Ex.parse_int (fee Ex.prompt) = None -> step = (Py.Err Py.ValueError, [])) /\
  (Ex.parse_int (fee Ex.prompt) <> None -> data Ex.empty_answer = None ->
   step = (Py.Ok AnswersNotValid, [])) /\
  (Ex.parse_int (fee Ex.prompt) <> None -> data Ex.empty_answer = Some [] ->
   step = (Py.Err Py.IndexError, [])).
Proof.
  apply (degenerate_consensus_answer Ex.parse_int Ex.block_range Ex.pool_events
           Ex.incompleted Ex.first_pick input_order [1] [Some Ex.empty_answer]
           Ex.prompt Ex.settings 7 [] ["H0"]%string "H0"%string 1
           Ex.empty_answer []).
  - reflexivity.
  - discriminate.
  - reflexivity.
  - reflexivity.
Defined.

(* ================================================================== *)
(** * Properties of the registry functions *)
(* ================================================================== *)

Lemma get_present {V : Type} (d : Py.dict V) (k : Z) (v : V) :
  well_formed d -> In (k, v) d -> Py.get d k = Py.Ok v.
Proof.
  unfold well_formed, Py.keys.
  induction d as [|[k' v'] d IH]; simpl; intros Hd Hin; [contradiction|].
  inversion Hd; subst.
  destruct Hin as [E|Hin].
  - injection E as -> ->. now rewrite Z.eqb_refl.
  - destruct (Z.eqb_spec k' k) as [->|Hne]; [|now apply IH].
    exfalso. apply H1. apply in_map_iff. exists (k, v). auto.
Qed.

Lemma get_ok_in {V : Type} (d : Py.dict V) (k : Z) (v : V) :
  Py.get d k = Py.Ok v -> In (k, v) d.
Proof.
  induction d as [|[k' v'] d IH]; simpl; [discriminate|].
  destruct (Z.eqb_spec k' k) as [->|Hne].
  - intros H. injection H as ->. now left.
  - intros H. right. now apply IH.
Qed.

Lemma get_absent {V : Type} (d : Py.dict V) (k : Z) :
  ~ In k (Py.keys d) -> Py.get d k = Py.Err Py.KeyError.
Proof.
  unfold Py.keys. induction d as [|[k' v'] d IH]; simpl; intros H; [reflexivity|].
  destruct (Z.eqb_spec k' k) as [->|Hne]; [exfalso; apply H; now left|].
  apply IH. intros Hin. apply H. now right.
Qed.

(** X12.  [get_subnet_netuid] returns the netuid of the first subnet, in
    the order of the registry's dictionary, that bears the name asked
    for, and raises [ValueError] exactly when no subnet bears it; looking
    the returned netuid up in the dictionary gives the name back. *)
Theorem subnet_netuid_lookup (subnets : Py.dict string) (subnet_name : string) :
  well_formed subnets ->
  (forall netuid,
      get_subnet_netuid subnets subnet_name = Py.Ok netuid <->
      exists before after,
        subnets = before ++ (netuid, subnet_name) :: after /\
        forall kv, In kv before -> snd kv <> subnet_name) /\
  (get_subnet_netuid subnets subnet_name = Py.Err Py.ValueError <->
   forall kv, In kv subnets -> snd kv <> subnet_name) /\
  (forall netuid,
      get_subnet_netuid subnets subnet_name = Py.Ok netuid ->
      Py.get subnets netuid = Py.Ok subnet_name).
Proof.
  intros Hd.
  assert (Hfirst : forall netuid,
             get_subnet_netuid subnets subnet_name = Py.Ok netuid <->
             exists before after,
               subnets = before ++ (netuid, subnet_name) :: after /\
               forall kv, In kv before -> snd kv <> subnet_name).
  { clear Hd. induction subnets as [|[k name] l IH]; intros netuid; simpl.
    - split; [discriminate|]. intros (before & after & E & _).
      destruct before; discriminate.
    - destruct (String.eqb_spec name subnet_name) as [->|Hne].
      + split.
        * intros H. injection H as ->. exists [], l. split; [reflexivity|].
          intros kv [].
        * intros (before & after & E & Hb).
          destruct before as [|b before].
          -- simpl in E. injection E as ->. reflexivity.
          -- simpl in E. injection E as <- _.
             exfalso. apply (Hb (k, subnet_name)); [now left|reflexivity].
      + rewrite IH. split.
        * intros (before & after & E & Hb).
          exists ((k, name) :: before), after. subst l. split; [reflexivity|].
          intros kv [<-|Hin]; [exact Hne|now apply Hb].
        * intros (before & after & E & Hb).
          destruct before as [|b before].
          -- simpl in E. injection E as _ E' _. congruence.
          -- simpl in E. injection E as <- ->.
             exists before, after. split; [reflexivity|].
             intros kv Hin. apply Hb. now right. }
  split; [exact Hfirst|]. split.
  - clear Hd Hfirst. induction subnets as [|[k name] l IH]; simpl.
    + split; [intros _ kv []|reflexivity].
    + destruct (String.eqb_spec name subnet_name) as [->|Hne].
      * split; [discriminate|]. intros H. exfalso.
        apply (H (k, subnet_name)); [now left|reflexivity].
      * rewrite IH. split.
        -- intros H kv [<-|Hin]; [exact Hne|now apply H].
        -- intros H kv Hin. apply H. now right.
  - intros netuid H. apply Hfirst in H.
    destruct H as (before & after & E & _).
    apply get_present; [exact Hd|]. rewrite E. apply in_or_app. right. now left.
Qed.

Lemma subnet_netuid_lookup_witness :
  (forall netuid,
      get_subnet_netuid [(0, "root"); (7, "velora"); (9, "velora")]%string
        "velora"%string = Py.Ok netuid <->
      exists before after,
        [(0, "root"); (7, "velora"); (9, "velora")]%string
        = before ++ (netuid, "velora"%string) :: after /\
        forall kv, In kv before -> snd kv <> "velora"%string) /\
  (get_subnet_netuid [(0, "root"); (7, "velora"); (9, "velora")]%string
     "velora"%string = Py.Err Py.ValueError <->
   forall kv, In kv [(0, "root"); (7, "velora"); (9, "velora")]%string ->
              snd kv <> "velora"%string) /\
  (forall netuid,
      get_subnet_netuid [(0, "root"); (7, "velora"); (9, "velora")]%string
        "velora"%string = Py.Ok netuid ->
      Py.get [(0, "root"); (7, "velora"); (9, "velora")]%string netuid
      = Py.Ok "velora"%string).
Proof.
  apply (subnet_netuid_lookup [(0, "root"); (7, "velora"); (9, "velora")]%string
           "velora"%string).
  unfold well_formed. simpl.
  repeat constructor; simpl; intuition discriminate.
Defined.

Section AddressProperties.

Variable char : Type.
Variable char_eq_dec : forall a b : char, {a = b} + {a <> b}.
Variable is_digit : char -> bool.
Variables dot colon : char.

Local Abbreviation klass := (in_class char_eq_dec is_digit).

Lemma run_spec (cl : cclass char) (limit : option nat) (s : list char) :
  let n := run char_eq_dec is_digit cl limit s in
  (n <= length s)%nat /\
  Forall (fun c => klass cl c = true) (firstn n s) /\
  match limit with
  | Some k => (n <= k)%nat
  | None =>
      match skipn n s with
      | [] => True
      | c :: _ => klass cl c = false
      end
  end.
Proof.
  revert limit. induction s as [|c s IH]; intros limit.
  - destruct limit as [[|k]|]; simpl; (split; [lia|split; [constructor|]]);
      try lia; exact I.
  - destruct limit as [[|k]|]; simpl.
    + split; [lia|split; [constructor|lia]].
    + destruct (klass cl c) eqn:E; simpl.
      * destruct (IH (Some k)) as (H1 & H2 & H3).
        split; [lia|split; [constructor; auto|lia]].
      * split; [lia|split; [constructor|lia]].
    + destruct (klass cl c) eqn:E; simpl.
      * destruct (IH None) as (H1 & H2 & H3).
        split; [lia|split; [constructor; auto|exact H3]].
      * split; [lia|split; [constructor|exact E]].
Qed.

Lemma backtrack_spec (cont : list char -> option (list char * list char))
    (s : list char) (lo n : nat) (m rest : list char) :
  (lo <= n)%nat ->
  backtrack cont s lo n = Some (m, rest) ->
  exists j m',
    (lo <= j <= n)%nat /\
    cont (skipn j s) = Some (m', rest) /\
    m = firstn j s ++ m'.
Proof.
  induction n as [|n IH]; intros Hlo; cbn [backtrack].
  - destruct (cont (skipn 0 s)) as [[m' r]|] eqn:E; [|discriminate].
    intros H. injection H as <- <-. exists O, m'.
    split; [lia|]. split; [exact E|reflexivity].
  - destruct (cont (skipn (S n) s)) as [[m' r]|] eqn:E.
    + intros H. injection H as <- <-. exists (S n), m'.
      split; [lia|]. split; [exact E|reflexivity].
    + destruct (Nat.leb_spec (S n) lo) as [Hle|Hgt]; [discriminate|].
      intros H. destruct (IH ltac:(lia) H) as (j & m' & Hj & Hc & Hm).
      exists j, m'. split; [lia|]. split; [exact Hc|exact Hm].
Qed.

(** When the rest of the expression matches at once, a greedy quantifier
    keeps all the characters it took. *)
Lemma backtrack_first (cont : list char -> option (list char * list char))
    (s : list char) (lo n : nat) (m' rest : list char) :
  cont (skipn n s) = Some (m', rest) ->
  backtrack cont s lo n = Some (firstn n s ++ m', rest).
Proof.
  intros H. destruct n; cbn [backtrack]; now rewrite H.
Qed.

Lemma forall_firstn_le {A : Type} (P : A -> Prop) (j n : nat) (s : list A) :
  (j <= n)%nat -> Forall P (firstn n s) -> Forall P (firstn j s).
Proof.
  revert j n. induction s as [|c s IH]; intros j n Hj H.
  - rewrite firstn_nil. constructor.
  - destruct j as [|j]; [constructor|].
    destruct n as [|n]; [lia|]. simpl in *.
    inversion H; subst. constructor; [assumption|].
    apply (IH j n); [lia|assumption].
Qed.

(** What [match_here] returns is a prefix of the text that conforms to
    the expression. *)
Lemma match_here_conforms (toks : list (token char)) (s m rest : list char) :
  match_here char_eq_dec is_digit toks s = Some (m, rest) ->
  s = m ++ rest /\ conforms char_eq_dec is_digit toks m.
Proof.
  revert s m rest. induction toks as [|t ts IH]; intros s m rest; simpl.
  - intros H. injection H as <- <-. split; reflexivity.
  - destruct (Nat.ltb_spec (run char_eq_dec is_digit (cls t) (rmax t) s) (rmin t))
      as [Hlt|Hge]; [discriminate|].
    intros H. apply backtrack_spec in H; [|exact Hge].
    destruct H as (j & m' & Hj & Hc & ->).
    apply IH in Hc. destruct Hc as [Es Hconf].
    destruct (run_spec (cls t) (rmax t) s) as (Hlen & Hall & Hlim).
    split.
    + rewrite <- app_assoc, <- Es. symmetry. apply firstn_skipn.
    + exists (firstn j s), m'. split; [reflexivity|].
      assert (Hl : length (firstn j s) = j) by (rewrite length_firstn; lia).
      rewrite Hl. split; [lia|]. split.
      * destruct (rmax t); [lia|exact I].
      * split; [|exact Hconf]. eapply forall_firstn_le; [|exact Hall]. lia.
Qed.

(** An expression that ends with an unbounded greedy item leaves nothing
    of its last class behind. *)
Lemma match_here_greedy_end (toks : list (token char)) (last : token char)
    (s m rest : list char) :
  rmax last = None ->
  match_here char_eq_dec is_digit (toks ++ [last]) s = Some (m, rest) ->
  match rest with
  | [] => True
  | c :: _ => klass (cls last) c = false
  end.
Proof.
  intros Hlast. revert s m rest.
  induction toks as [|t ts IH]; intros s m rest; simpl.
  - destruct (Nat.ltb_spec (run char_eq_dec is_digit (cls last) (rmax last) s)
                (rmin last)) as [Hlt|Hge]; [discriminate|].
    rewrite (backtrack_first _ s (rmin last) _ [] (skipn _ s)) by reflexivity.
    intros H. injection H as _ <-.
    pose proof (run_spec (cls last) (rmax last) s) as (_ & _ & Hlim).
    rewrite Hlast in *. exact Hlim.
  - destruct (Nat.ltb_spec (run char_eq_dec is_digit (cls t) (rmax t) s) (rmin t))
      as [Hlt|Hge]; [discriminate|].
    intros H. apply backtrack_spec in H; [|exact Hge].
    destruct H as (j & m' & _ & Hc & _). eapply IH; eauto.
Qed.

Lemma search_spec (toks : list (token char)) (s m : list char) :
  search char_eq_dec is_digit toks s = Some m ->
  exists before rest,
    s = before ++ m ++ rest /\
    match_here char_eq_dec is_digit toks (m ++ rest) = Some (m, rest).
Proof.
  induction s as [|c s IH]; simpl.
  - destruct (match_here char_eq_dec is_digit toks []) as [[m' r]|] eqn:E;
      [|discriminate].
    intros H. injection H as ->.
    pose proof (match_here_conforms _ _ _ _ E) as [Es _].
    exists [], r. split; [exact Es|]. now rewrite <- Es.
  - destruct (match_here char_eq_dec is_digit toks (c :: s)) as [[m' r]|] eqn:E.
    + intros H. injection H as ->.
      pose proof (match_here_conforms _ _ _ _ E) as [Es _].
      exists [], r. split; [exact Es|]. now rewrite <- Es.
    + intros H. destruct (IH H) as (before & rest & Es & Hm).
      exists (c :: before), rest. split; [simpl; now rewrite Es|exact Hm].
Qed.

(** [search] skips exactly the positions at which there is no match. *)
Lemma search_none (toks : list (token char)) (s : list char) :
  search char_eq_dec is_digit toks s = None <->
  forall before after, s = before ++ after ->
                       match_here char_eq_dec is_digit toks after = None.
Proof.
  induction s as [|c s IH]; simpl.
  - destruct (match_here char_eq_dec is_digit toks []) as [[m r]|] eqn:E.
    + split; [discriminate|]. intros H. specialize (H [] [] eq_refl). congruence.
    + split; [|reflexivity]. intros _ before after Hs.
      symmetry in Hs. apply app_eq_nil in Hs. destruct Hs as [_ ->]. exact E.
  - destruct (match_here char_eq_dec is_digit toks (c :: s)) as [[m r]|] eqn:E.
    + split; [discriminate|]. intros H. specialize (H [] (c :: s) eq_refl).
      congruence.
    + rewrite IH. split.
      * intros H before after Hs. destruct before as [|b before].
        -- simpl in Hs. subst after. exact E.
        -- simpl in Hs. injection Hs as _ Hs. eapply H; eauto.
      * intros H before after Hs. apply (H (c :: before) after).
        simpl. now rewrite Hs.
Qed.

End AddressProperties.

Section AddressShape.

Variable char : Type.
Variable char_eq_dec : forall a b : char, {a = b} + {a <> b}.
Variable is_digit : char -> bool.
Variables dot colon : char.

Hypothesis colon_not_digit : is_digit colon = false.
Hypothesis dot_not_colon : dot <> colon.

Local Abbreviation klass := (in_class char_eq_dec is_digit).
Local Abbreviation matches := (match_here char_eq_dec is_digit).

Lemma lit_run (c : char) (a : list char) :
  (1 <= length a)%nat -> (length a <= 1)%nat ->
  Forall (fun x => klass (Lit c) x = true) a -> a = [c].
Proof.
  destruct a as [|x [|y a]]; simpl; intros H1 H2 H; try lia.
  apply Forall_inv in H. simpl in H.
  destruct (char_eq_dec c x); [now subst|discriminate].
Qed.

Lemma digit_run (a : list char) :
  (1 <= length a)%nat ->
  Forall (fun x => klass Digit x = true) a -> digits is_digit a.
Proof.
  intros H1 H. split; [destruct a; simpl in *; [lia|discriminate]|exact H].
Qed.

(** The texts that conform to [IP_REGEX]. *)
Lemma ip_regex_shape (m : list char) :
  conforms char_eq_dec is_digit (IP_REGEX dot colon) m <->
  exists ip port,
    m = ip ++ colon :: port /\ dotted_quad is_digit dot ip /\
    digits is_digit port.
Proof.
  split.
  - intros H. simpl in H.
    destruct H as (a1 & b1 & E1 & L1 & U1 & F1 & H).
    destruct H as (a2 & b2 & E2 & L2 & U2 & F2 & H).
    destruct H as (a3 & b3 & E3 & L3 & U3 & F3 & H).
    destruct H as (a4 & b4 & E4 & L4 & U4 & F4 & H).
    destruct H as (a5 & b5 & E5 & L5 & U5 & F5 & H).
    destruct H as (a6 & b6 & E6 & L6 & U6 & F6 & H).
    destruct H as (a7 & b7 & E7 & L7 & U7 & F7 & H).
    destruct H as (a8 & b8 & E8 & L8 & U8 & F8 & H).
    destruct H as (a9 & b9 & E9 & L9 & U9 & F9 & H).
    apply lit_run in F2; auto. apply lit_run in F4; auto.
    apply lit_run in F6; auto. apply lit_run in F8; auto.
    subst. exists (a1 ++ dot :: a3 ++ dot :: a5 ++ dot :: a7), a9.
    split.
    { rewrite app_nil_r. repeat (rewrite <- app_assoc; simpl). reflexivity. }
    split; [|now apply digit_run].
    exists a1, a3, a5, a7. split; [reflexivity|].
    repeat split; try (apply digit_run; assumption); assumption.
  - intros (ip & port & -> & (d1 & d2 & d3 & d4 & -> & O1 & O2 & O3 & O4) & Hp).
    assert (Hlen : forall d, digits is_digit d -> (1 <= length d)%nat).
    { intros d [Hne _]. destruct d; simpl; [congruence|lia]. }
    assert (Hlit : forall c, Forall (fun x => klass (Lit c) x = true) [c]).
    { intros c. constructor; [|constructor]. simpl.
      destruct (char_eq_dec c c); congruence. }
    destruct O1 as [D1 B1], O2 as [D2 B2], O3 as [D3 B3], O4 as [D4 B4].
    simpl.
    exists d1, ([dot] ++ d2 ++ [dot] ++ d3 ++ [dot] ++ d4 ++ [colon] ++ port).
    split. { repeat (rewrite <- app_assoc; simpl). reflexivity. }
    split; [now apply Hlen|]. split; [exact B1|]. split; [apply D1|].
    exists [dot], (d2 ++ [dot] ++ d3 ++ [dot] ++ d4 ++ [colon] ++ port).
    split; [reflexivity|]. split; [simpl; lia|]. split; [simpl; lia|].
    split; [apply Hlit|].
    exists d2, ([dot] ++ d3 ++ [dot] ++ d4 ++ [colon] ++ port).
    split; [reflexivity|].
    split; [now apply Hlen|]. split; [exact B2|]. split; [apply D2|].
    exists [dot], (d3 ++ [dot] ++ d4 ++ [colon] ++ port).
    split; [reflexivity|]. split; [simpl; lia|]. split; [simpl; lia|].
    split; [apply Hlit|].
    exists d3, ([dot] ++ d4 ++ [colon] ++ port).
    split; [reflexivity|].
    split; [now apply Hlen|]. split; [exact B3|]. split; [apply D3|].
    exists [dot], (d4 ++ [colon] ++ port).
    split; [reflexivity|]. split; [simpl; lia|]. split; [simpl; lia|].
    split; [apply Hlit|].
    exists d4, ([colon] ++ port).
    split; [reflexivity|].
    split; [now apply Hlen|]. split; [exact B4|]. split; [apply D4|].
    exists [colon], port.
    split; [reflexivity|]. split; [simpl; lia|]. split; [simpl; lia|].
    split; [apply Hlit|].
    exists port, []. split; [now rewrite app_nil_r|].
    split; [now apply Hlen|]. split; [exact I|]. split; [apply Hp|reflexivity].
Qed.

Lemma split_no_sep (sep : char) (s : list char) :
  ~ In sep s -> split char_eq_dec sep s = [s].
Proof.
  induction s as [|c s IH]; simpl; intros H; [reflexivity|].
  destruct (char_eq_dec c sep) as [->|Hne]; [exfalso; apply H; now left|].
  rewrite IH; [reflexivity|]. intros Hin. apply H. now right.
Qed.

Lemma split_at_sep (sep : char) (s t : list char) :
  ~ In sep s ->
  split char_eq_dec sep (s ++ sep :: t) = s :: split char_eq_dec sep t.
Proof.
  induction s as [|c s IH]; simpl; intros H.
  - destruct (char_eq_dec sep sep); congruence.
  - destruct (char_eq_dec c sep) as [->|Hne]; [exfalso; apply H; now left|].
    rewrite IH; [reflexivity|]. intros Hin. apply H. now right.
Qed.

Lemma split_nonempty (sep : char) (s : list char) :
  split char_eq_dec sep s <> [].
Proof.
  destruct s as [|c s]; simpl; [discriminate|].
  destruct (char_eq_dec c sep); [discriminate|].
  destruct (split char_eq_dec sep s); discriminate.
Qed.

Lemma digits_no_colon (d : list char) :
  Forall (fun c => is_digit c = true) d -> ~ In colon d.
Proof.
  intros H Hin. eapply Forall_forall in H; [|exact Hin]. congruence.
Qed.

Lemma dotted_quad_no_colon (ip : list char) :
  dotted_quad is_digit dot ip -> ~ In colon ip.
Proof.
  intros (d1 & d2 & d3 & d4 & -> & [[_ D1] _] & [[_ D2] _] & [[_ D3] _] & [[_ D4] _]).
  intros Hin.
  repeat (apply in_app_or in Hin;
          destruct Hin as [Hin|[Hin|Hin]];
          [now apply digits_no_colon in Hin|congruence|]).
  now apply digits_no_colon in Hin.
Qed.

(** The text found by [extract_address] is a part of the address that
    conforms to [IP_REGEX] and is not followed by a digit. *)
Lemma extract_address_conforms (addr m : list char) :
  extract_address char_eq_dec is_digit dot colon addr = Some m ->
  exists before after,
    addr = before ++ m ++ after /\
    conforms char_eq_dec is_digit (IP_REGEX dot colon) m /\
    no_leading_digit is_digit after.
Proof.
  unfold extract_address. intros H.
  apply search_spec in H. destruct H as (before & after & Es & Hm).
  pose proof (match_here_conforms _ _ _ _ _ _ _ Hm) as [_ Hconf].
  exists before, after. split; [exact Es|]. split; [exact Hconf|].
  pose proof (match_here_greedy_end char char_eq_dec is_digit
                [mkToken Digit 1 (Some 3%nat); mkToken (Lit dot) 1 (Some 1%nat);
                 mkToken Digit 1 (Some 3%nat); mkToken (Lit dot) 1 (Some 1%nat);
                 mkToken Digit 1 (Some 3%nat); mkToken (Lit dot) 1 (Some 1%nat);
                 mkToken Digit 1 (Some 3%nat); mkToken (Lit colon) 1 (Some 1%nat)]
                (mkToken Digit 1 None) _ _ _ eq_refl Hm) as Hend.
  unfold no_leading_digit. destruct after; [exact I|exact Hend].
Qed.

Lemma split_ip_port (ip port : list char) :
  dotted_quad is_digit dot ip -> digits is_digit port ->
  split char_eq_dec colon (ip ++ colon :: port) = [ip; port].
Proof.
  intros Hip Hport.
  rewrite split_at_sep by now apply dotted_quad_no_colon.
  rewrite split_no_sep; [reflexivity|]. apply digits_no_colon, Hport.
Qed.

(** X13.  What [extract_address] finds.  The text returned is a part of
    the address string of the form [ip:port], where [ip] is four groups
    of one to three digits separated by dots and [port] a non-empty
    string of digits; the port is not cut short (no digit follows the
    match); and splitting the text at [':'], as [get_ip_port] does, gives
    exactly the two strings [ip] and [port]. *)
Theorem extracted_address_shape (addr m : list char) :
  extract_address char_eq_dec is_digit dot colon addr = Some m ->
  exists before after ip port,
    addr = before ++ m ++ after /\
    m = ip ++ colon :: port /\
    dotted_quad is_digit dot ip /\
    digits is_digit port /\
    no_leading_digit is_digit after /\
    split char_eq_dec colon m = [ip; port].
Proof.
  intros H. apply extract_address_conforms in H.
  destruct H as (before & after & Es & Hconf & Hend).
  apply ip_regex_shape in Hconf.
  destruct Hconf as (ip & port & -> & Hip & Hport).
  exists before, after, ip, port.
  split; [exact Es|]. split; [reflexivity|]. split; [exact Hip|].
  split; [exact Hport|]. split; [exact Hend|].
  now apply split_ip_port.
Qed.

End AddressShape.

Section AddressCompleteness.

Variable char : Type.
Variable char_eq_dec : forall a b : char, {a = b} + {a <> b}.
Variable is_digit : char -> bool.
Variables dot colon : char.

Local Abbreviation klass := (in_class char_eq_dec is_digit).

Lemma run_covers (cl : cclass char) (limit : option nat) (a x : list char) :
  Forall (fun c => klass cl c = true) a ->
  match limit with
  | Some k => (length a <= k)%nat
  | None => True
  end ->
  (length a <= run char_eq_dec is_digit cl limit (a ++ x))%nat.
Proof.
  revert limit. induction a as [|c a IH]; intros limit Hall Hlim; simpl; [lia|].
  inversion Hall; subst.
  destruct limit as [[|k]|]; simpl in Hlim; simpl; rewrite ?H1.
  - lia.
  - assert (Hk : (length a <= k)%nat) by lia.
    specialize (IH (Some k) H2 Hk). lia.
  - specialize (IH None H2 I). lia.
Qed.

Lemma backtrack_complete (cont : list char -> option (list char * list char))
    (s : list char) (lo n j : nat) (res : list char * list char) :
  (lo <= j <= n)%nat ->
  cont (skipn j s) = Some res ->
  exists res', backtrack cont s lo n = Some res'.
Proof.
  induction n as [|n IH]; intros Hj Hc; cbn [backtrack].
  - assert (j = O) by lia. subst j. rewrite Hc. destruct res. eauto.
  - destruct (cont (skipn (S n) s)) as [[m r]|] eqn:E; [eauto|].
    assert (j <> S n) by (intros ->; congruence).
    destruct (Nat.leb_spec (S n) lo) as [Hle|Hgt]; [lia|].
    apply IH; [lia|exact Hc].
Qed.

Lemma skipn_length_app {A : Type} (a x : list A) : skipn (length a) (a ++ x) = x.
Proof. induction a as [|c a IH]; simpl; auto. Qed.

(** A text that starts with something conforming to the expression is
    matched at its start. *)
Lemma match_here_complete (toks : list (token char)) (m rest : list char) :
  conforms char_eq_dec is_digit toks m ->
  exists res, match_here char_eq_dec is_digit toks (m ++ rest) = Some res.
Proof.
  revert m rest. induction toks as [|t ts IH]; intros m rest; simpl.
  - intros _. eauto.
  - intros (a & b & -> & Hmin & Hmax & Hall & Hconf).
    rewrite <- app_assoc.
    pose proof (run_covers (cls t) (rmax t) a (b ++ rest) Hall Hmax) as Hr.
    destruct (Nat.ltb_spec
                (run char_eq_dec is_digit (cls t) (rmax t) (a ++ b ++ rest))
                (rmin t)) as [Hlt|Hge]; [lia|].
    destruct (IH b rest Hconf) as [res Hres].
    apply (backtrack_complete _ _ _ _ (length a) res); [lia|].
    now rewrite skipn_length_app.
Qed.

(** X14.  [extract_address] returns [None] exactly for the address
    strings that contain no text of the form [ip:port] (four groups of
    one to three digits separated by dots, a colon, at least one digit):
    a module whose address holds such a text anywhere is never dropped by
    [get_ip_port]. *)
Theorem no_address_iff_no_ip_port (addr : list char) :
  extract_address char_eq_dec is_digit dot colon addr = None <->
  forall before ip port after,
    addr = before ++ (ip ++ colon :: port) ++ after ->
    dotted_quad is_digit dot ip -> digits is_digit port -> False.
Proof.
  unfold extract_address. split.
  - intros Hnone before ip port after Es Hip Hport.
    assert (Hconf : conforms char_eq_dec is_digit (IP_REGEX dot colon)
                      (ip ++ colon :: port)).
    { apply ip_regex_shape; eauto. }
    destruct (match_here_complete _ _ after Hconf) as [res Hres].
    rewrite search_none in Hnone.
    rewrite (Hnone before _ Es) in Hres. discriminate.
  - intros Hno.
    destruct (search char_eq_dec is_digit (IP_REGEX dot colon) addr) as [m|] eqn:E;
      [|reflexivity].
    exfalso.
    destruct (extract_address_conforms char char_eq_dec is_digit dot colon
                addr m E) as (before & after & Es & Hconf & _).
    apply ip_regex_shape in Hconf.
    destruct Hconf as (ip & port & -> & Hip & Hport).
    eapply Hno; eauto.
Qed.

End AddressCompleteness.

Section ModulesToPoll.

Variable char : Type.
Variable char_eq_dec : forall a b : char, {a = b} + {a <> b}.
Variable is_digit : char -> bool.
Variables dot colon : char.

Hypothesis colon_not_digit : is_digit colon = false.
Hypothesis dot_not_colon : dot <> colon.

Local Abbreviation extract := (extract_address char_eq_dec is_digit dot colon).
Local Abbreviation ip_port := (get_ip_port char_eq_dec is_digit dot colon).

(** The entry of one module in [get_ip_port]: none, or its two strings. *)
Local Abbreviation entry :=
  (fun kv : Z * list char =>
     match extract (snd kv) with
     | Some x => [(fst kv, split char_eq_dec colon x)]
     | None => []
     end).

Lemma keys_entries_in (l : Py.dict (list char)) (k : Z) :
  In k (Py.keys (flat_map entry l)) -> In k (Py.keys l).
Proof.
  unfold Py.keys. induction l as [|[id addr] l IH]; simpl; [tauto|].
  rewrite map_app. intros H. apply in_app_or in H. destruct H as [H|H].
  - destruct (extract addr); simpl in H; [|contradiction].
    destruct H as [<-|[]]. now left.
  - right. now apply IH.
Qed.

Lemma entries_well_formed (l : Py.dict (list char)) :
  well_formed l -> well_formed (flat_map entry l).
Proof.
  unfold well_formed. induction l as [|[id addr] l IH]; simpl; intros H.
  - constructor.
  - unfold Py.keys in *. simpl in H. inversion H; subst.
    rewrite map_app. destruct (extract addr); simpl.
    + constructor; [|now apply IH].
      intros Hin. apply H2. now apply keys_entries_in in Hin.
    + now apply IH.
Qed.

Lemma get_ip_port_entries (addrs : Py.dict (list char)) :
  well_formed addrs -> ip_port addrs = flat_map entry addrs.
Proof.
  intros Hd. unfold get_ip_port.
  rewrite (of_items_well_formed
             (map (fun kv => (fst kv, extract (snd kv))) addrs)).
  2:{ unfold well_formed, Py.keys. rewrite map_map. exact Hd. }
  rewrite of_items_well_formed.
  - clear Hd. induction addrs as [|[id addr] l IH]; simpl; [reflexivity|].
    now rewrite IH.
  - assert (E : flat_map
                  (fun kv : Z * option (list char) =>
                     match snd kv with
                     | Some x => [(fst kv, split char_eq_dec colon x)]
                     | None => []
                     end)
                  (map (fun kv => (fst kv, extract (snd kv))) addrs)
                = flat_map entry addrs).
    { clear Hd. induction addrs as [|[id addr] l IH]; simpl; [reflexivity|].
      now rewrite IH. }
    rewrite E. now apply entries_well_formed.
Qed.

Lemma in_entries (l : Py.dict (list char)) (id : Z) (conn : list (list char)) :
  In (id, conn) (flat_map entry l) <->
  exists addr m,
    In (id, addr) l /\ extract addr = Some m /\
    conn = split char_eq_dec colon m.
Proof.
  rewrite in_flat_map. split.
  - intros ([id' addr] & Hin & H). simpl in H.
    destruct (extract addr) as [m|] eqn:E; simpl in H; [|contradiction].
    destruct H as [H|[]]. injection H as -> <-. eauto.
  - intros (addr & m & Hin & E & ->).
    exists (id, addr). split; [exact Hin|]. simpl. rewrite E. now left.
Qed.

Lemma has_key_true {V : Type} (d : Py.dict V) (id : Z) :
  has_key d id = true <-> In id (Py.keys d).
Proof.
  unfold has_key. rewrite existsb_exists. split.
  - intros (x & Hin & E). apply Z.eqb_eq in E. now subst.
  - intros H. exists id. split; [exact H|apply Z.eqb_refl].
Qed.

Lemma in_keys_iff {V : Type} (d : Py.dict V) (k : Z) :
  In k (Py.keys d) <-> exists v, In (k, v) d.
Proof.
  unfold Py.keys. rewrite in_map_iff. split.
  - intros ([k' v] & E & Hin). simpl in E. subst. eauto.
  - intros (v & Hin). exists (k, v). auto.
Qed.

Lemma modules_info_loop_spec
    (filtered : Py.dict (list (list char))) (modules_keys : Py.dict string)
    (ids : list Z) (acc : Py.dict (list (list char) * string)) :
  well_formed filtered -> well_formed modules_keys ->
  (forall id conn, In (id, conn) filtered -> conn <> []) ->
  incl ids (Py.keys modules_keys) ->
  NoDup (Py.keys acc ++ ids) ->
  exists added,
    modules_info_loop filtered modules_keys ids acc = Py.Ok (acc ++ added) /\
    Py.keys added = filter (has_key filtered) ids /\
    forall id conn key,
      In (id, (conn, key)) added <->
      In id ids /\ In (id, conn) filtered /\ In (id, key) modules_keys.
Proof.
  intros Hf Hk Hne. revert acc.
  induction ids as [|id ids IH]; intros acc Hincl Hnd; simpl.
  - exists []. rewrite app_nil_r. split; [reflexivity|]. split; [reflexivity|].
    intros id conn key. simpl. tauto.
  - pose proof (NoDup_remove_1 _ _ _ Hnd) as Hnd1.
    pose proof (NoDup_remove_2 _ _ _ Hnd) as Hnd2.
    apply nodup_app_cons_fresh in Hnd. destruct Hnd as [Hfresh Hnd].
    assert (Hincl' : incl ids (Py.keys modules_keys)).
    { intros x Hx. apply Hincl. now right. }
    assert (Hid : In id (Py.keys modules_keys)) by (apply Hincl; now left).
    apply in_keys_iff in Hid. destruct Hid as [key Hkey].
    assert (Hnotin : ~ In id ids).
    { intros Hin. apply Hnd2. apply in_or_app. right. exact Hin. }
    destruct (Py.get filtered id) as [conn|e] eqn:Eg.
    + pose proof (get_ok_in _ _ _ Eg) as Hconn.
      destruct conn as [|p ps]; [exfalso; eapply Hne; eauto|].
      rewrite (get_present _ _ _ Hk Hkey). simpl.
      rewrite (set_fresh _ _ _ Hfresh).
      destruct (IH (acc ++ [(id, (p :: ps, key))]) Hincl') as (added & E & Hkeys & Hin).
      { rewrite keys_app. simpl. exact Hnd. }
      exists ((id, (p :: ps, key)) :: added).
      split; [rewrite E, <- app_assoc; reflexivity|]. split.
      * simpl. assert (Hh : has_key filtered id = true).
        { apply has_key_true. apply in_keys_iff. eauto. }
        rewrite Hh. simpl. now rewrite Hkeys.
      * intros id' conn' key'. simpl. rewrite Hin. split.
        -- intros [E'|(H1 & H2 & H3)].
           ++ injection E' as <- <- <-. auto.
           ++ auto.
        -- intros ([<-|H1] & H2 & H3).
           ++ left.
              assert (conn' = p :: ps).
              { pose proof (get_present _ _ _ Hf H2) as G. congruence. }
              assert (key' = key).
              { pose proof (get_present _ _ _ Hk H3) as G.
                pose proof (get_present _ _ _ Hk Hkey) as G'. congruence. }
              now subst.
           ++ right. auto.
    + destruct (IH acc Hincl') as (added & E & Hkeys & Hin).
      { exact Hnd1. }
      exists added. split; [exact E|]. split.
      * assert (Hh : has_key filtered id = false).
        { destruct (has_key filtered id) eqn:Eh; [|reflexivity].
          apply has_key_true, in_keys_iff in Eh. destruct Eh as [v Hv].
          rewrite (get_present _ _ _ Hf Hv) in Eg. discriminate. }
        rewrite Hh. exact Hkeys.
      * intros id' conn' key'. rewrite Hin. split.
        -- intros (H1 & H2 & H3). auto.
        -- intros ([<-|H1] & H2 & H3); [|auto].
           rewrite (get_present _ _ _ Hf H2) in Eg. discriminate.
Qed.

(** X15.  The modules that are polled.  From the addresses and the keys
    of the registry (two dictionaries), [validate_step] builds
    [modules_info] without raising; its ids are those ids of
    [modules_keys], in the order of [modules_keys], whose address string
    holds an [ip:port] text; the entry of such an id pairs the key of the
    module with a connection of exactly two strings, a dotted quad and a
    non-empty string of digits, both read from the address string.  So
    the unpacking [module_ip, module_port = connection] of
    [_get_miner_prediction] gets two values and [int(module_port)] a
    string of digits. *)
Theorem polled_modules_have_ip_and_port
    (modules_adresses : Py.dict (list char)) (modules_keys : Py.dict string) :
  well_formed modules_adresses ->
  well_formed modules_keys ->
  exists modules_info,
    modules_to_poll char_eq_dec is_digit dot colon modules_adresses modules_keys
    = Py.Ok modules_info /\
    Py.keys modules_info
    = filter (has_key (ip_port modules_adresses)) (Py.keys modules_keys) /\
    (forall id,
        has_key (ip_port modules_adresses) id = true <->
        exists addr, In (id, addr) modules_adresses /\ extract addr <> None) /\
    (forall id conn key,
        In (id, (conn, key)) modules_info ->
        In (id, key) modules_keys /\
        exists addr before after ip port,
          In (id, addr) modules_adresses /\
          addr = before ++ (ip ++ colon :: port) ++ after /\
          conn = [ip; port] /\
          dotted_quad is_digit dot ip /\
          digits is_digit port).
Proof.
  intros Ha Hk. unfold modules_to_poll.
  pose proof (get_ip_port_entries modules_adresses Ha) as Eip.
  assert (Hf : well_formed (ip_port modules_adresses)).
  { rewrite Eip. now apply entries_well_formed. }
  assert (Hne : forall id conn, In (id, conn) (ip_port modules_adresses) -> conn <> []).
  { intros id conn Hin. rewrite Eip in Hin. apply in_entries in Hin.
    destruct Hin as (addr & m & _ & _ & ->). apply split_nonempty. }
  destruct (modules_info_loop_spec (ip_port modules_adresses) modules_keys
              (Py.keys modules_keys) [] Hf Hk Hne (incl_refl _) Hk)
    as (added & E & Hkeys & Hin).
  exists added. split; [exact E|]. split; [exact Hkeys|]. split.
  - intros id. rewrite has_key_true, in_keys_iff. rewrite Eip. split.
    + intros (conn & Hc). apply in_entries in Hc.
      destruct Hc as (addr & m & H1 & H2 & _). exists addr. split; [exact H1|].
      congruence.
    + intros (addr & H1 & H2). destruct (extract addr) as [m|] eqn:Em; [|congruence].
      exists (split char_eq_dec colon m). apply in_entries. eauto.
  - intros id conn key H. apply Hin in H. destruct H as (_ & Hc & Hkey).
    split; [exact Hkey|].
    rewrite Eip in Hc. apply in_entries in Hc.
    destruct Hc as (addr & m & H1 & H2 & ->).
    destruct (extract_address_conforms char char_eq_dec is_digit dot colon
                addr m H2) as (before & after & Es & Hconf & _).
    apply ip_regex_shape in Hconf.
    destruct Hconf as (ip & port & -> & Hip & Hport).
    exists addr, before, after, ip, port.
    split; [exact H1|]. split; [exact Es|].
    split; [now apply (split_ip_port char char_eq_dec is_digit dot colon)|].
    split; assumption.
Qed.

End ModulesToPoll.

Lemma ex_colon_not_digit : ExAddr.is_digit ExAddr.colon = false.
Proof. reflexivity. Qed.

Lemma ex_dot_not_colon : ExAddr.dot <> ExAddr.colon.
Proof. intros H. vm_compute in H. discriminate. Qed.

Lemma extracted_address_shape_witness :
  exists before after ip port,
    ExAddr.chars "http://127.0.0.1:8080/x"
    = before ++ ExAddr.chars "127.0.0.1:8080" ++ after /\
    ExAddr.chars "127.0.0.1:8080" = ip ++ ExAddr.colon :: port /\
    dotted_quad ExAddr.is_digit ExAddr.dot ip /\
    digits ExAddr.is_digit port /\
    no_leading_digit ExAddr.is_digit after /\
    split Ascii.ascii_dec ExAddr.colon (ExAddr.chars "127.0.0.1:8080")
    = [ip; port].
Proof.
  apply (extracted_address_shape Ascii.ascii Ascii.ascii_dec ExAddr.is_digit
           ExAddr.dot ExAddr.colon ex_colon_not_digit ex_dot_not_colon
           (ExAddr.chars "http://127.0.0.1:8080/x")
           (ExAddr.chars "127.0.0.1:8080")).
  vm_compute. reflexivity.
Defined.

(** An address with a dotted quad and a colon but no port has no match. *)
Example address_without_port :
  extract_address Ascii.ascii_dec ExAddr.is_digit ExAddr.dot ExAddr.colon
    (ExAddr.chars "1.2.3.4:") = None.
Proof. vm_compute. reflexivity. Qed.

Lemma polled_modules_have_ip_and_port_witness :
  exists modules_info,
    modules_to_poll Ascii.ascii_dec ExAddr.is_digit ExAddr.dot ExAddr.colon
      [(1, ExAddr.chars "10.0.0.1:80"); (2, ExAddr.chars "none")]
      [(2, "k2"); (1, "k1"); (3, "k3")]%string
    = Py.Ok modules_info /\
    Py.keys modules_info
    = filter
        (has_key
           (get_ip_port Ascii.ascii_dec ExAddr.is_digit ExAddr.dot ExAddr.colon
              [(1, ExAddr.chars "10.0.0.1:80"); (2, ExAddr.chars "none")]))
        (Py.keys [(2, "k2"); (1, "k1"); (3, "k3")]%string) /\
    (forall id,
        has_key
          (get_ip_port Ascii.ascii_dec ExAddr.is_digit ExAddr.dot ExAddr.colon
             [(1, ExAddr.chars "10.0.0.1:80"); (2, ExAddr.chars "none")]) id
        = true <->
        exists addr,
          In (id, addr) [(1, ExAddr.chars "10.0.0.1:80"); (2, ExAddr.chars "none")] /\
          extract_address Ascii.ascii_dec ExAddr.is_digit ExAddr.dot
            ExAddr.colon addr <> None) /\
    (forall id conn key,
        In (id, (conn, key)) modules_info ->
        In (id, key) [(2, "k2"); (1, "k1"); (3, "k3")]%string /\
        exists addr before after ip port,
          In (id, addr) [(1, ExAddr.chars "10.0.0.1:80"); (2, ExAddr.chars "none")] /\
          addr = before ++ (ip ++ ExAddr.colon :: port) ++ after /\
          conn = [ip; port] /\
          dotted_quad ExAddr.is_digit ExAddr.dot ip /\
          digits ExAddr.is_digit port).
Proof.
  apply (polled_modules_have_ip_and_port Ascii.ascii Ascii.ascii_dec
           ExAddr.is_digit ExAddr.dot ExAddr.colon ex_colon_not_digit
           ex_dot_not_colon
           [(1, ExAddr.chars "10.0.0.1:80"); (2, ExAddr.chars "none")]
           [(2, "k2"); (1, "k1"); (3, "k3")]%string).
  - unfold well_formed. simpl.
    repeat constructor; simpl; intuition discriminate.
  - unfold well_formed. simpl.
    repeat constructor; simpl; intuition discriminate.
Defined.

(** The module 1 of the example is polled at 10.0.0.1, port 80; the
    module 2 has no usable address and the module 3 no address at all. *)
Example modules_to_poll_example :
  modules_to_poll Ascii.ascii_dec ExAddr.is_digit ExAddr.dot ExAddr.colon
    [(1, ExAddr.chars "10.0.0.1:80"); (2, ExAddr.chars "none")]
    [(2, "k2"); (1, "k1"); (3, "k3")]%string
  = Py.Ok [(1, ([ExAddr.chars "10.0.0.1"; ExAddr.chars "80"], "k1"%string))].
Proof. vm_compute. reflexivity. Qed.

(* ================================================================== *)
(** * Ties *)
(* ================================================================== *)

Lemma insert_desc_class (q : Q) (x : Z * Py.num) (l : list (Z * Py.num)) :
  filter (with_score q) (PyMore.insert_desc snd x l)
  = filter (with_score q) (x :: l).
Proof.
  induction l as [|y l IH]; simpl; [reflexivity|].
  destruct (Py.lt (snd x) (snd y)) eqn:E; [|reflexivity].
  apply lt_true_of in E. simpl. rewrite IH. simpl.
  destruct (with_score q x) eqn:Ex, (with_score q y) eqn:Ey; try reflexivity.
  exfalso. unfold with_score in *.
  apply Qeq_bool_iff in Ex. apply Qeq_bool_iff in Ey.
  rewrite Ex, Ey in E. now apply Qlt_irrefl in E.
Qed.

Lemma sorted_reverse_class (q : Q) (l : list (Z * Py.num)) :
  filter (with_score q) (PyMore.sorted_reverse snd l) = filter (with_score q) l.
Proof.
  induction l as [|x l IH]; simpl; [reflexivity|].
  rewrite insert_desc_class. simpl. now rewrite IH.
Qed.

(** X16.  Ties are broken by the order of the dictionary.  Among the
    items of [score_dict] that have one and the same score, those kept
    by [cut_to_max_allowed_weights] are the first ones in the order of
    the dictionary, and they are kept in that order. *)
Theorem cut_breaks_ties_by_dict_order (score_dict : Py.dict Py.num) (m : Z)
    (q : Q) :
  well_formed score_dict ->
  exists dropped,
    filter (with_score q) score_dict
    = filter (with_score q) (cut_to_max_allowed_weights score_dict m) ++ dropped.
Proof.
  intros Hd. rewrite (cut_is_retained _ _ Hd). unfold retained.
  destruct (slice_to_firstn (PyMore.sorted_reverse snd score_dict) m) as [n ->].
  exists (filter (with_score q) (skipn n (PyMore.sorted_reverse snd score_dict))).
  rewrite <- filter_app, firstn_skipn. symmetry. apply sorted_reverse_class.
Qed.

Lemma cut_breaks_ties_by_dict_order_witness :
  exists dropped,
    filter (with_score (1 # 2))
      [(1, Py.Float (1 # 2)); (2, Py.Float (9 # 10)); (3, Py.Float (1 # 2))]
    = filter (with_score (1 # 2))
        (cut_to_max_allowed_weights
           [(1, Py.Float (1 # 2)); (2, Py.Float (9 # 10)); (3, Py.Float (1 # 2))] 2)
      ++ dropped.
Proof.
  apply (cut_breaks_ties_by_dict_order
           [(1, Py.Float (1 # 2)); (2, Py.Float (9 # 10)); (3, Py.Float (1 # 2))]
           2 (1 # 2)).
  unfold well_formed. simpl.
  repeat constructor; simpl; intuition discriminate.
Defined.
